(** * Photo Analyzer: app data to YOLO converter

    A shallow embedding of [app_to_yolo_converter.py] (class
    [AppDataToYOLO]) and the properties of its scoring function, its
    letterbox transform, its label encoder and its conversion loop.

    Conventions of the embedding:
    - a Python [dict] with string keys is a [gmap string _];
    - a Python [int] is a [Z]; a Python [float] is a binary64 value of
      [SpecFloat] (precision 53, [emax] 1024, round to nearest even);
    - a float literal that is only returned or compared with itself
      (the scores) is kept as the decimal rational it denotes;
    - a [numpy] array of [uint8] is a shape and a total pixel function
      into [Byte.byte];
    - a raised exception is the [None] of an [option] result. *)

From Stdlib Require Import ZArith QArith Qabs Qminmax String Ascii Strings.Byte DecimalString Lia.
From Stdlib Require Import Floats.SpecFloat.
From stdpp Require Import gmap strings list.

#[local] Open Scope string_scope.
#[local] Open Scope Z_scope.

(** ** The class table *)

(** [self.target_classes]: position in the list is the class id. *)
Definition target_classes : list string :=
  [ "no_objects"; "pakke"; "postkasse"; "etikett"; "postkasseskilt";
    "pakke_i_postkasse"; "pakke_ved_inngangsparti"; "inngangsparti" ].

(** ** Score evaluator *)

Module Score.

(** [detected_objects.get(key, default)]. *)
Definition get (detected_objects : gmap string Z) (key : string) (dflt : Z) : Z :=
  default dflt (detected_objects !! key).

(** [AppDataToYOLO.calculate_package_detection_score]: the [if]/[elif]
    chain of the source, branch for branch. *)
Definition calculate_package_detection_score (detected_objects : gmap string Z) : Q :=
  let no_objects := get detected_objects "no_objects" 0 in
  let pakke := get detected_objects "pakke" 0 in
  let postkasse := get detected_objects "postkasse" 0 in
  let etikett := get detected_objects "etikett" 0 in
  let postkasseskilt := get detected_objects "postkasseskilt" 0 in
  let pakke_i_postkasse := get detected_objects "pakke_i_postkasse" 0 in
  let pakke_ved_inngangsparti := get detected_objects "pakke_ved_inngangsparti" 0 in
  let inngangsparti := get detected_objects "inngangsparti" 0 in
  if no_objects >? 0 then 0.0%Q
  else if (pakke >? 0) && (postkasse >? 0) && (etikett >? 0) && (postkasseskilt >? 0) then 1.0%Q
  else if (pakke_i_postkasse >? 0) && (etikett >? 0) && (postkasseskilt >? 0) then 1.0%Q
  else if pakke_ved_inngangsparti >? 0 then 1.0%Q
  else if (pakke >? 0) && (inngangsparti >? 0) then 1.0%Q
  else if (etikett >? 0) && (postkasseskilt >? 0) then 0.8%Q
  else if (pakke >? 0) && (postkasse >? 0) && (postkasseskilt >? 0) then 0.7%Q
  else if (pakke >? 0) && (postkasseskilt >? 0) then 0.6%Q
  else if (pakke >? 0) && (postkasse >? 0) && (etikett >? 0) then 0.5%Q
  else if inngangsparti >? 0 then 0.5%Q
  else if (pakke >? 0) && (postkasse >? 0) then 0.25%Q
  else if (postkasse >? 0) && (postkasseskilt >? 0) then 0.25%Q
  else if postkasseskilt >? 0 then 0.2%Q
  else if pakke >? 0 then 0.1%Q
  else if postkasse >? 0 then 0.1%Q
  else if etikett >? 0 then 0.05%Q
  else 0.0%Q.

(** The decision list as the specification words it: an ordered table of
    predicate -> value rules, a predicate being the list of classes whose
    count must be positive, evaluated first match wins. *)
Record rule := Rule { present : list string; value : Q }.

Definition spec_rules : list rule :=
  [ Rule ["no_objects"] 0.0;
    Rule ["pakke"; "postkasse"; "etikett"; "postkasseskilt"] 1.0;
    Rule ["pakke_i_postkasse"; "etikett"; "postkasseskilt"] 1.0;
    Rule ["pakke_ved_inngangsparti"] 1.0;
    Rule ["pakke"; "inngangsparti"] 1.0;
    Rule ["etikett"; "postkasseskilt"] 0.8;
    Rule ["pakke"; "postkasse"; "postkasseskilt"] 0.7;
    Rule ["pakke"; "postkasseskilt"] 0.6;
    Rule ["pakke"; "postkasse"; "etikett"] 0.5;
    Rule ["inngangsparti"] 0.5;
    Rule ["pakke"; "postkasse"] 0.25;
    Rule ["postkasse"; "postkasseskilt"] 0.25;
    Rule ["postkasseskilt"] 0.2;
    Rule ["pakke"] 0.1;
    Rule ["postkasse"] 0.1;
    Rule ["etikett"] 0.05 ]%Q.

Definition matches (counts : gmap string Z) (r : rule) : bool :=
  forallb (fun k => 0 <? get counts k 0) (present r).

Fixpoint first_match (counts : gmap string Z) (rules : list rule) : Q :=
  match rules with
  | [] => 0.0%Q
  | r :: rest => if matches counts r then value r else first_match counts rest
  end.

Definition spec_score (counts : gmap string Z) : Q := first_match counts spec_rules.

End Score.

(** ** Python numbers *)

Module Py.

(** A Python [float] is an IEEE 754 binary64 value. *)
Definition prec : Z := 53.
Definition emax : Z := 1024.
Abbreviation float := spec_float.

(** Conversion of an [int] operand to [float]: correctly rounded, and an
    [OverflowError] (here [None]) when the integer is too large. *)
Definition of_int (n : Z) : option float :=
  match binary_normalize prec emax n 0 false with
  | S754_infinity _ => None
  | f => Some f
  end.

Definition is_zero (f : float) : bool :=
  match f with S754_zero _ => true | _ => false end.

Definition is_finite (f : float) : bool :=
  match f with S754_zero _ | S754_finite _ _ _ => true | _ => false end.

(** [a / b] on two floats: [ZeroDivisionError] on a zero divisor. *)
Definition float_truediv (a b : float) : option float :=
  if is_zero b then None else Some (SFdiv prec emax a b).

(** [a / b] on two ints: the correctly rounded quotient of the integers,
    [ZeroDivisionError] on [b = 0], [OverflowError] when the quotient is
    too large for a float. *)
Definition int_truediv (a b : Z) : option float :=
  match a, b with
  | _, Z0 => None
  | Z0, _ => Some (S754_zero (b <? 0))
  | _, _ =>
      let '(q, e, l) := SFdiv_core_binary prec emax (Z.abs a) 0 (Z.abs b) 0 in
      match binary_round_aux prec emax (xorb (a <? 0) (b <? 0)) q e l with
      | S754_infinity _ => None
      | f => Some f
      end
  end.

Definition float_mul (a b : float) : float := SFmul prec emax a b.
Definition float_add (a b : float) : float := SFadd prec emax a b.

(** [x / n], [n * x] with a float and an int: the int is converted first. *)
Definition float_div_int (a : float) (n : Z) : option float :=
  b ← of_int n; float_truediv a b.

Definition int_mul_float (n : Z) (b : float) : option float :=
  a ← of_int n; Some (float_mul a b).

(** The builtin [min(a, b)]: the first argument unless the second is
    strictly smaller. *)
Definition min (a b : float) : float := if SFltb b a then b else a.

(** [int(f)]: truncation toward zero; an exception on infinities and NaN. *)
Definition int (f : float) : option Z :=
  match f with
  | S754_zero _ => Some 0
  | S754_finite s m e =>
      let n := match e with
               | Zneg p => Z.pos m / 2 ^ Z.pos p
               | _ => Z.pos m * 2 ^ e
               end in
      Some (if s then - n else n)
  | _ => None
  end.

(** *** String formatting *)

Definition newline : string := String "010"%char EmptyString.

Definition digit (d : Z) : ascii := ascii_of_N (48 + Z.to_N (d mod 10)).

(** [str(n)] of a non-negative int. *)
Definition str_nat (n : nat) : string := NilZero.string_of_uint (Nat.to_uint n).

Definition str_N (n : N) : string := NilZero.string_of_uint (N.to_uint n).

(** The nearest integer to [num / den], ties to the even one. *)
Definition round_half_even (num : Z) (den : positive) : Z :=
  let q := num / Z.pos den in
  let r := num mod Z.pos den in
  match 2 * r ?= Z.pos den with
  | Lt => q
  | Gt => q + 1
  | Eq => if Z.even q then q else q + 1
  end.

(** The six digits after the point of [n / 10^6]. *)
Definition frac6 (n : Z) : string :=
  String (digit (n / 100000))
    (String (digit (n / 10000))
       (String (digit (n / 1000))
          (String (digit (n / 100))
             (String (digit (n / 10))
                (String (digit n) EmptyString))))).

Definition fixed6 (negative : bool) (n : Z) : string :=
  (if negative then "-" else EmptyString) ++ str_N (Z.to_N (n / 1000000)) ++ "." ++ frac6 n.

(** [f"{x:.6f}"]: the exact value of the float rounded to six decimals
    (ties to even), the sign kept even when the digits are all zero;
    [inf] and [nan] print as words. *)
Definition format_6f (x : float) : string :=
  match x with
  | S754_nan => "nan"
  | S754_infinity s => if s then "-inf" else "inf"
  | S754_zero s => fixed6 s 0
  | S754_finite s m e =>
      fixed6 s
        match e with
        | Zneg p => round_half_even (Z.pos m * 1000000) (2 ^ p)%positive
        | _ => Z.pos m * 2 ^ e * 1000000
        end
  end.

(** *** The shape of a [.6f] field, as a decidable predicate *)

Definition is_digit (c : ascii) : bool :=
  let n := N_of_ascii c in ((48 <=? n) && (n <=? 57))%N.

Fixpoint all_digits (s : string) : bool :=
  match s with
  | EmptyString => true
  | String c r => is_digit c && all_digits r
  end.

(** Digits, at least one before the point, then a point, then exactly six
    digits. [seen] says that a digit was already read. *)
Fixpoint digits_point_six (s : string) (seen : bool) : bool :=
  match s with
  | EmptyString => false
  | String c r =>
      if is_digit c then digits_point_six r true
      else if Ascii.eqb c "."%char
           then seen && (String.length r =? 6)%nat && all_digits r
           else false
  end.

Definition six_decimals (s : string) : bool :=
  match s with
  | String "-"%char r => digits_point_six r false
  | _ => digits_point_six s false
  end.

End Py.

(** ** Images: the [numpy] and OpenCV operations the converter calls *)

Module Cv.

(** A [uint8] array of shape [(rows, cols, 3)]: the shape and a pixel
    function [px row col channel], read only inside the shape. *)
Record image := Image { rows : Z; cols : Z; px : Z -> Z -> Z -> byte }.

Definition in_shape (img : image) (r c ch : Z) : Prop :=
  0 <= r < rows img /\ 0 <= c < cols img /\ 0 <= ch < 3.

(** Equality of arrays: same shape, same value at every index. *)
Definition same_image (a b : image) : Prop :=
  rows a = rows b /\ cols a = cols b /\
  forall r c ch, in_shape a r c ch -> px a r c ch = px b r c ch.

Definition value (b : byte) : Z := Z.of_N (Byte.to_N b).

(** [saturate_cast<uchar>]: clamp to [0..255]. *)
Definition saturate_cast (z : Z) : byte :=
  match Byte.of_N (Z.to_N (Z.max 0 (Z.min 255 z))) with
  | Some b => b
  | None => x00
  end.

(** [np.full((rows, cols, 3), fill, dtype=np.uint8)]. *)
Definition np_full (r c : Z) (fill : Z) : image :=
  Image r c (fun _ _ _ => saturate_cast fill).

(** One bound of a slice [a:b] on an axis of length [n]: negative bounds
    count from the end, and the result is clipped to [0..n]. *)
Definition slice_bound (n i : Z) : Z :=
  if i <? 0 then Z.max 0 (i + n) else Z.min i n.

(** Start and length of the slice [start:stop] on an axis of length [n]. *)
Definition slice (n start stop : Z) : Z * Z :=
  let s := slice_bound n start in
  (s, Z.max 0 (slice_bound n stop - s)).

(** A source axis of length [src] can be assigned to a slice of length
    [dst] when the lengths agree or the source axis has length one. *)
Definition broadcasts (src dst : Z) : bool := (src =? dst) || (src =? 1).

(** [dst[r0:r1, c0:c1] = src]: [ValueError] (here [None]) when the shapes
    cannot be broadcast. *)
Definition np_set_slice (dst : image) (r0 r1 c0 c1 : Z) (src : image) : option image :=
  let '(rs, rl) := slice (rows dst) r0 r1 in
  let '(cs, cl) := slice (cols dst) c0 c1 in
  if broadcasts (rows src) rl && broadcasts (cols src) cl then
    Some (Image (rows dst) (cols dst)
            (fun r c ch =>
               if (rs <=? r) && (r <? rs + rl) && (cs <=? c) && (c <? cs + cl)
               then px src (if rows src =? 1 then 0 else r - rs)
                           (if cols src =? 1 then 0 else c - cs) ch
               else px dst r c ch))
  else None.

(** [cv2.convertScaleAbs] on one channel value:
    [saturate_cast<uchar>(|v * alpha + beta|)], the cast rounding to the
    nearest integer, ties to even. *)
Definition convertScaleAbs_value (alpha beta : Q) (v : byte) : byte :=
  let t := Qabs (inject_Z (value v) * alpha + beta) in
  saturate_cast (Py.round_half_even (Qnum t) (Qden t)).

Definition convertScaleAbs (img : image) (alpha beta : Q) : image :=
  Image (rows img) (cols img)
        (fun r c ch => convertScaleAbs_value alpha beta (px img r c ch)).

(** The first statements of [optimize_image_for_yolo]: the scale that
    keeps the aspect ratio and the size [(new_w, new_h)] of the resized
    image; [None] when a division or a conversion raises. *)
Definition new_size (target_size w h : Z) : option (Z * Z) :=
  scale_w ← Py.int_truediv target_size w;
  scale_h ← Py.int_truediv target_size h;
  let scale := Py.min scale_w scale_h in
  new_w ← Py.int_mul_float w scale ≫= Py.int;
  new_h ← Py.int_mul_float h scale ≫= Py.int;
  Some (new_w, new_h).

(** The size as the specification words it: [round(W * scale)] and
    [round(H * scale)] for the exact [scale = min(T/W, T/H)]. *)
Definition spec_new_size (target_size w h : Z) : Z * Z :=
  let scale := Qmin (target_size # Z.to_pos w) (target_size # Z.to_pos h) in
  let round (q : Q) := Py.round_half_even (Qnum q) (Qden q) in
  (round (inject_Z w * scale)%Q, round (inject_Z h * scale)%Q).

Section OpenCV.

(** What the embedding leaves open in OpenCV: the contents the bilinear
    filter computes for a target size [(w, h)], and the Gaussian filter
    for kernels larger than one pixel. *)
Variable interpolate : image -> Z * Z -> Z -> Z -> Z -> byte.
Variable gaussian : image -> Z * Z -> image.

(** [cv2.resize(img, (w, h), interpolation=cv2.INTER_LINEAR)]: an array of
    shape [(h, w, 3)]; [cv2.error] (here [None]) on an empty source or a
    target size that is not positive. *)
Definition resize (img : image) (dsize : Z * Z) : option image :=
  let '(w, h) := dsize in
  if (0 <? w) && (0 <? h) && (0 <? rows img) && (0 <? cols img)
  then Some (Image h w (interpolate img dsize))
  else None.

(** [cv2.GaussianBlur(img, ksize, 0)]: a kernel of one pixel has the
    single weight 1 and leaves the array as it is. *)
Definition GaussianBlur (img : image) (ksize : Z * Z) : image :=
  if (fst ksize =? 1) && (snd ksize =? 1) then img else gaussian img ksize.

(** [AppDataToYOLO.enhance_for_iphone_photos]. *)
Definition enhance_for_iphone_photos (img : image) : image :=
  let img := GaussianBlur img (1, 1) in
  let img := convertScaleAbs img 0.95 5 in
  img.

(** [AppDataToYOLO.optimize_image_for_yolo]; [None] when one of its steps
    raises. *)
Definition optimize_image_for_yolo (img : image) : option image :=
  let target_size := 640 in
  let '(h, w) := (rows img, cols img) in
  '(new_w, new_h) ← new_size target_size w h;
  img_resized ← resize img (new_w, new_h);
  let img_padded := np_full target_size target_size 114 in
  let pad_w := (target_size - new_w) / 2 in
  let pad_h := (target_size - new_h) / 2 in
  img_padded ← np_set_slice img_padded pad_h (pad_h + new_h) pad_w (pad_w + new_w)
                 img_resized;
  let img_optimized := enhance_for_iphone_photos img_padded in
  Some img_optimized.

End OpenCV.

End Cv.

(** ** The converter: label encoder, per-photo processing, main loop *)

Module Converter.
Import Cv.

(** One entry of [boundingBoxes]. The coordinates are JSON numbers. Each
    of them only enters a true division or an addition with a float, where
    a JSON integer below 2^53 behaves as the float of the same value, so
    they are kept as floats; the JSON number [1e999] is read as [inf]. *)
Record BoundingBox := {
  bbox_label : string;
  x : Py.float;
  y : Py.float;
  width : Py.float;
  height : Py.float
}.

(** One entry of the manifest's [photos]. [label] is [None] when the key
    is absent; an absent [boundingBoxes] is the empty list. *)
Record PhotoRecord := {
  id : string;
  imagePath : string;
  label : option string;
  boundingBoxes : list BoundingBox
}.

(** [classes.index(name)]: the first position of [name]; [ValueError]
    (here [None]) when it does not occur. *)
Fixpoint index (name : string) (classes : list string) : option nat :=
  match classes with
  | [] => None
  | c :: rest => if String.eqb c name then Some 0%nat else S <$> index name rest
  end.

(** [name in classes]. *)
Definition contains (classes : list string) (name : string) : bool :=
  existsb (String.eqb name) classes.

(** How a block of statements ends. *)
Inductive outcome := Returned | Raised.

(** The body of the [for bbox in ...] loop for a box whose label is known:
    the line it writes, or [None] when a statement raises. *)
Definition box_line (bbox : BoundingBox) (h w : Z) : option string :=
  class_id ← index (bbox_label bbox) target_classes;
  half_width ← Py.float_div_int (width bbox) 2;
  x_center ← Py.float_div_int (Py.float_add (x bbox) half_width) w;
  half_height ← Py.float_div_int (height bbox) 2;
  y_center ← Py.float_div_int (Py.float_add (y bbox) half_height) h;
  width ← Py.float_div_int (width bbox) w;
  height ← Py.float_div_int (height bbox) h;
  Some (Py.str_nat class_id ++ " " ++ Py.format_6f x_center ++ " "
          ++ Py.format_6f y_center ++ " " ++ Py.format_6f width ++ " "
          ++ Py.format_6f height ++ Py.newline).

(** The [for bbox in photo_data['boundingBoxes']] loop: the strings passed
    to [f.write], in order, and how the loop ended. *)
Fixpoint write_boxes (boxes : list BoundingBox) (h w : Z) : list string * outcome :=
  match boxes with
  | [] => ([], Returned)
  | bbox :: rest =>
      if contains target_classes (bbox_label bbox) then
        match box_line bbox h w with
        | Some line =>
            let '(lines, o) := write_boxes rest h w in (line :: lines, o)
        | None => ([], Raised)
        end
      else write_boxes rest h w
  end.

(** [AppDataToYOLO.create_yolo_label]: the strings written to the label
    file, in order (the file holds their concatenation), and whether the
    call returned or raised. *)
Definition create_yolo_label (photo_data : PhotoRecord) (img_shape : Z * Z * Z)
  : list string * outcome :=
  let '(h, w, _) := img_shape in
  match boundingBoxes photo_data with
  | _ :: _ => write_boxes (boundingBoxes photo_data) h w
  | [] =>
      let label := default "no_objects" (label photo_data) in
      if contains target_classes label then
        match index label target_classes with
        | Some class_id =>
            ([Py.str_nat class_id ++ " 0.5 0.5 1.0 1.0" ++ Py.newline], Returned)
        | None => ([], Raised)
        end
      else (["0 0.5 0.5 1.0 1.0" ++ Py.newline], Returned)
  end.

(** The contents of the label file after the call. *)
Definition label_file (photo_data : PhotoRecord) (img_shape : Z * Z * Z) : string :=
  String.concat EmptyString (fst (create_yolo_label photo_data img_shape)).

(** *** Files and the run *)

Inductive file := Jpeg (img : image) | Text (content : string).

(** The output tree, and [calls]: a history of the calls of
    [process_photo] (record and split, oldest first). The history is not
    program state; it is kept to state what the loop attempted. *)
Record world := World {
  files : gmap string file;
  calls : list (PhotoRecord * string)
}.

Definition write_file (w : world) (path : string) (f : file) : world :=
  World (<[path := f]> (files w)) (calls w).

Definition record_call (w : world) (photo_data : PhotoRecord) (split : string) : world :=
  World (files w) (calls w ++ [(photo_data, split)]).

(** [manifest.json] as the run finds it. *)
Inductive manifest_file :=
| Missing
| Malformed
| Manifest (photos : list PhotoRecord).

(** How [convert_app_data] ends: [return False], [return True] with the
    three counters of its summary, or an exception that leaves it. *)
Inductive result :=
| ReturnFalse
| ReturnTrue (train_count val_count skipped_count : nat)
| Exception.

Section Run.

Variable interpolate : image -> Z * Z -> Z -> Z -> Z -> byte.
Variable gaussian : image -> Z * Z -> image.
(** [Path.exists] and [cv2.imread] ([None]: the file cannot be decoded)
    on the source images. *)
Variable path_exists : string -> bool.
Variable imread : string -> option image.
(** [self.output_path] and its absolute form. *)
Variable output_path : string.
Variable output_path_absolute : string.

(** [AppDataToYOLO.create_dataset_yaml]. *)
Definition dataset_yaml : string :=
  String.concat Py.newline
    ([ "# Norwegian Package Detection Dataset";
       "# Generated from Photo Analyzer app data";
       EmptyString;
       "path: " ++ output_path_absolute;
       "train: images/train";
       "val: images/val";
       EmptyString;
       "# Number of classes";
       "nc: " ++ Py.str_nat (length target_classes);
       EmptyString;
       "# Class names (Norwegian package detection)";
       "names:" ]
     ++ imap (fun i name => "  " ++ Py.str_nat i ++ ": '" ++ name ++ "'") target_classes
     ++ [ EmptyString;
          "# Scoring logic for package detection:";
          "# 1.0: Definite package delivery";
          "# 0.5-0.8: Likely package delivery";
          "# 0.1-0.25: Possible package-related activity";
          "# 0.0: No package detected";
          EmptyString ]).

Definition create_dataset_yaml (w : world) : world :=
  write_file w (output_path ++ "/dataset.yaml") (Text dataset_yaml).

(** [AppDataToYOLO.process_photo]. The [try] block is the part from
    [cv2.imread] on; whatever raises inside it makes the call return
    [False]. *)
Definition process_photo (photo_data : PhotoRecord) (split : string) (w : world)
  : bool * world :=
  let image_path := imagePath photo_data in
  if negb (path_exists image_path) then (false, w)
  else
    match imread image_path with
    | None => (false, w)
    | Some img =>
        match optimize_image_for_yolo interpolate gaussian img with
        | None => (false, w)
        | Some img_optimized =>
            let img_name := id photo_data ++ ".jpg" in
            let img_output_path := output_path ++ "/images/" ++ split ++ "/" ++ img_name in
            let w := write_file w img_output_path (Jpeg img_optimized) in
            let label_output_path :=
              output_path ++ "/labels/" ++ split ++ "/" ++ id photo_data ++ ".txt" in
            let '(lines, o) :=
              create_yolo_label photo_data (rows img_optimized, cols img_optimized, 3) in
            let w := write_file w label_output_path (Text (String.concat EmptyString lines)) in
            match o with
            | Returned => (true, w)
            | Raised => (false, w)
            end
        end
    end.

(** The three counters of [convert_app_data]. *)
Record counters := Counters { train_count : nat; val_count : nat; skipped_count : nat }.

(** The split of the photo at index [i]. *)
Definition is_val (i : nat) : bool := (i mod 5 =? 0)%nat.
Definition split_of (i : nat) : string := if is_val i then "val" else "train".

(** One iteration of the [for i, photo_data in enumerate(...)] loop. *)
Definition loop_body (i : nat) (photo_data : PhotoRecord) (st : counters * world)
  : counters * world :=
  let '(c, w) := st in
  let is_val := is_val i in
  let split := if is_val then "val" else "train" in
  let '(success, w) := process_photo photo_data split (record_call w photo_data split) in
  if success then
    if is_val
    then (Counters (train_count c) (val_count c + 1) (skipped_count c), w)
    else (Counters (train_count c + 1) (val_count c) (skipped_count c), w)
  else (Counters (train_count c) (val_count c) (skipped_count c + 1), w).

(** The loop, from index [i] on. *)
Fixpoint loop (i : nat) (photos : list PhotoRecord) (st : counters * world)
  : counters * world :=
  match photos with
  | [] => st
  | photo_data :: rest => loop (S i) rest (loop_body i photo_data st)
  end.

(** [AppDataToYOLO.convert_app_data]. *)
Definition convert_app_data (manifest : manifest_file) (w : world) : result * world :=
  match manifest with
  | Missing => (ReturnFalse, w)
  | Malformed => (Exception, w)
  | Manifest photos =>
      let w := create_dataset_yaml w in
      let '(c, w) := loop 0 photos (Counters 0 0 0, w) in
      (ReturnTrue (train_count c) (val_count c) (skipped_count c), w)
  end.

End Run.

End Converter.

(** ** Label encoder: predicates and sample inputs used by the theorems *)

Module Encoder.
Import Py Cv Converter.

(** A box whose label is in the class table. *)
Definition known (bbox : BoundingBox) : bool :=
  contains target_classes (bbox_label bbox).

(** The shape of a line of box mode. *)
Definition box_line_shape (line : string) : Prop :=
  exists (class_id : nat) (cx cy bw bh : float),
    (class_id < length target_classes)%nat
    /\ line = str_nat class_id ++ " " ++ format_6f cx ++ " " ++ format_6f cy ++ " "
                ++ format_6f bw ++ " " ++ format_6f bh ++ newline
    /\ six_decimals (format_6f cx) = is_finite cx
    /\ six_decimals (format_6f cy) = is_finite cy
    /\ six_decimals (format_6f bw) = is_finite bw
    /\ six_decimals (format_6f bh) = is_finite bh.

(** The float [640.0]. *)
Definition float_640 : float := S754_finite false 5629499534213120 (-43).

Definition pakke_photo : PhotoRecord :=
  {| id := "photo-1"; imagePath := "/photos/photo-1.jpg";
     label := Some "pakke"; boundingBoxes := [] |}.

(** A box whose [x] is the JSON number [1e999], which Python reads as the
    float [inf]; the other fields are [0], [640] and [640]. *)
Definition overflowing_photo : PhotoRecord :=
  {| id := "photo-2"; imagePath := "/photos/photo-2.jpg"; label := None;
     boundingBoxes :=
       [ {| bbox_label := "pakke"; x := S754_infinity false; y := S754_zero false;
            width := float_640; height := float_640 |} ] |}.


(** A photo whose only box has a label outside the class table. *)
Definition unknown_box_photo : PhotoRecord :=
  {| id := "photo-3"; imagePath := "/photos/photo-3.jpg"; label := Some "pakke";
     boundingBoxes :=
       [ {| bbox_label := "sykkel"; x := S754_zero false; y := S754_zero false;
            width := float_640; height := float_640 |} ] |}.

End Encoder.

(** ** Letterbox transform: the specification's words and sample inputs *)

Module Letterbox.
Import Cv.

Definition clamp (lo hi z : Z) : Z := Z.max lo (Z.min hi z).

(** The nearest integer to a rational, ties to even. *)
Definition nearest (q : Q) : Z := Py.round_half_even (Qnum q) (Qden q).

(** The intensity transform as the specification words it:
    [clamp(input * 0.95 + 5, 0, 255)], brought to the integer the [uint8]
    output holds. *)
Definition spec_correction (input : Z) : Z :=
  clamp 0 255 (nearest (inject_Z input * 0.95 + 5)).

(** The correction the converter applies to one channel value. *)
Definition correction (v : byte) : byte := convertScaleAbs_value 0.95 5 v.

(** Where the resized image lies in the canvas. *)
Definition in_paste (new_w new_h r c : Z) : bool :=
  let pad_w := (640 - new_w) / 2 in
  let pad_h := (640 - new_h) / 2 in
  (pad_h <=? r) && (r <? pad_h + new_h) && (pad_w <=? c) && (c <? pad_w + new_w).

(** The canvas before the correction, for a resized image that fits. *)
Definition canvas (interpolate : image -> Z * Z -> Z -> Z -> Z -> byte)
    (img : image) (new_w new_h : Z) : image :=
  Image 640 640
    (fun r c ch =>
       if in_paste new_w new_h r c
       then interpolate img (new_w, new_h)
              (if new_h =? 1 then 0 else r - (640 - new_h) / 2)
              (if new_w =? 1 then 0 else c - (640 - new_w) / 2) ch
       else saturate_cast 114).

(** What is known of [cv2.resize] when the target size is the size of the
    source: the source is copied. *)
Definition copies_at_same_size (interpolate : image -> Z * Z -> Z -> Z -> Z -> byte) : Prop :=
  forall img r c ch,
    in_shape img r c ch -> interpolate img (cols img, rows img) r c ch = px img r c ch.

(** An image without content: every channel of every pixel has one value. *)
Definition uniform (img : image) : Prop :=
  forall r c ch, px img r c ch = px img 0 0 0.

(** Sample inputs: an interpolation that reads the source at the target
    index, a filter that does nothing, and three images. *)
Definition sample_interpolate : image -> Z * Z -> Z -> Z -> Z -> byte :=
  fun img _ => px img.
Definition sample_gaussian : image -> Z * Z -> image := fun img _ => img.

Definition black_640 : image := Image 640 640 (fun _ _ _ => x00).
Definition white_5x9 : image := Image 9 5 (fun _ _ _ => xff).
Definition white_1x1000 : image := Image 1000 1 (fun _ _ _ => xff).

End Letterbox.

(** ** Conversion loop: the specification's words and sample inputs *)

Module Run.
Import Cv Converter.

Section Usable.

Variable interpolate : image -> Z * Z -> Z -> Z -> Z -> byte.
Variable gaussian : image -> Z * Z -> image.
Variable path_exists : string -> bool.
Variable imread : string -> option image.

(** A record that is not skipped: its source image exists, can be decoded
    and goes through the letterbox transform. *)
Definition usable (photo_data : PhotoRecord) : bool :=
  path_exists (imagePath photo_data)
  && match imread (imagePath photo_data) with
     | Some img =>
         match optimize_image_for_yolo interpolate gaussian img with
         | Some _ => true
         | None => false
         end
     | None => false
     end.

End Usable.

(** The number of calls of [process_photo] made with the split [split]. *)
Definition assigned (split : string) (cs : list (PhotoRecord * string)) : nat :=
  length (List.filter (fun c => String.eqb (snd c) split) cs).

(** [ceil(n / 5)]. *)
Definition ceil_fifth (n : nat) : nat := ((n + 4) / 5)%nat.

(** Sample inputs: a manifest of three records, the second without a
    source image, the third with an image too narrow to be resized. *)
Definition photo (name : string) : PhotoRecord :=
  {| id := name; imagePath := "/photos/" ++ name ++ ".jpg";
     label := Some "pakke"; boundingBoxes := [] |}.

Definition sample_photos : list PhotoRecord := [ photo "a"; photo "b"; photo "c" ].

Definition sample_exists (path : string) : bool :=
  negb (String.eqb path "/photos/b.jpg").

Definition sample_imread (path : string) : option image :=
  if String.eqb path "/photos/c.jpg"
  then Some Letterbox.white_1x1000
  else Some Letterbox.black_640.

Definition empty_world : world := World ∅ [].

End Run.

(** ** Score evaluator: sample inputs for the further properties *)

Module ScoreSamples.

(** One detected [pakke]. *)
Definition one_pakke : gmap string Z := <["pakke" := 1]> ∅.

(** The same presence pattern with other magnitudes, a class that is not in
    the table and a count that is not positive. *)
Definition same_presence : gmap string Z :=
  <["pakke" := 7]> (<["sykkel" := 3]> (<["postkasse" := -2]> ∅)).

(** One detected [pakke] next to a [postkasse] and its sign. *)
Definition pakke_at_postkasse : gmap string Z :=
  <["pakke" := 1]> (<["postkasse" := 2]> (<["postkasseskilt" := 1]> ∅)).

End ScoreSamples.

(** ** Letterbox transform: the channel values as integers *)

Module Channel.
Import Cv Letterbox.

(** The correction as a function on the integers [0..255]. *)
Definition corrected (z : Z) : Z := value (correction (saturate_cast z)).

(** The correction moves from [z] to [z + 1] by 0 or 1, for every [z] from
    [0] to [254]: a check by evaluation. *)
Definition steps_by_at_most_one : bool :=
  forallb (fun n => let z := Z.of_nat n in
                    (corrected z <=? corrected (z + 1))
                    && (corrected (z + 1) <=? corrected z + 1))
          (seq 0 255).

End Channel.

(** ** Label encoder and descriptor: the words of the further properties *)

Module Descriptor.
Import Converter.

(** The line of [dataset.yaml] that names the class with id [class_id]. *)
Definition names_line (class_id : nat) (name : string) : string :=
  "  " ++ Py.str_nat class_id ++ ": '" ++ name ++ "'".

(** [line] is a whole line of [text]: it is followed by a newline, and it
    starts the text or follows a newline. *)
Definition has_line (text line : string) : Prop :=
  exists before after,
    text = before ++ line ++ Py.newline ++ after
    /\ (before = EmptyString \/ exists b, before = b ++ Py.newline).

(** A photo with two boxes, the first of an unknown class. *)
Definition two_box_photo : PhotoRecord :=
  {| id := "photo-4"; imagePath := "/photos/photo-4.jpg"; label := None;
     boundingBoxes :=
       [ {| bbox_label := "sykkel"; x := S754_zero false; y := S754_zero false;
            width := Encoder.float_640; height := Encoder.float_640 |};
         {| bbox_label := "postkasse"; x := S754_zero false; y := S754_zero false;
            width := Encoder.float_640; height := Encoder.float_640 |} ] |}.

End Descriptor.

(** ** The output tree of a run: the words of the further properties *)

Module Tree.
Import Cv Converter Run.

(** The paths [process_photo] and [create_dataset_yaml] write to. *)
Definition image_path (output_path split photo_id : string) : string :=
  output_path ++ "/images/" ++ split ++ "/" ++ (photo_id ++ ".jpg").

Definition label_path (output_path split photo_id : string) : string :=
  output_path ++ "/labels/" ++ split ++ "/" ++ photo_id ++ ".txt".

Definition yaml_path (output_path : string) : string := output_path ++ "/dataset.yaml".

(** A sequence of file writes, oldest first, carried out on a tree. *)
Definition apply_writes (writes : list (string * file)) (tree : gmap string file)
  : gmap string file :=
  fold_left (fun t pf => <[fst pf := snd pf]> t) writes tree.

(** The last write to [path] in a sequence of writes, if there is one. *)
Fixpoint last_write (path : string) (writes : list (string * file)) : option file :=
  match writes with
  | [] => None
  | pf :: rest =>
      match last_write path rest with
      | Some f => Some f
      | None => if String.eqb (fst pf) path then Some (snd pf) else None
      end
  end.

Section Writes.

Variable interpolate : image -> Z * Z -> Z -> Z -> Z -> byte.
Variable gaussian : image -> Z * Z -> image.
Variable path_exists : string -> bool.
Variable imread : string -> option image.
Variable output_path : string.
Variable output_path_absolute : string.

(** What the record at index [i] adds to the tree: its image and its label
    file when it is usable, nothing otherwise. *)
Definition record_writes (i : nat) (photo_data : PhotoRecord) : list (string * file) :=
  if path_exists (imagePath photo_data) then
    match imread (imagePath photo_data) with
    | Some img =>
        match optimize_image_for_yolo interpolate gaussian img with
        | Some img_optimized =>
            [ (image_path output_path (split_of i) (id photo_data), Jpeg img_optimized);
              (label_path output_path (split_of i) (id photo_data),
               Text (label_file photo_data (640, 640, 3))) ]
        | None => []
        end
    | None => []
    end
  else [].

(** The writes of the records from index [i] on. *)
Fixpoint records_writes (i : nat) (photos : list PhotoRecord) : list (string * file) :=
  match photos with
  | [] => []
  | photo_data :: rest => record_writes i photo_data ++ records_writes (S i) rest
  end.

(** The writes of a whole run: the descriptor, then the records. *)
Definition run_writes (photos : list PhotoRecord) : list (string * file) :=
  (yaml_path output_path, Text (dataset_yaml output_path_absolute))
  :: records_writes 0 photos.

(** The number of usable records, from index [i] on, whose split is
    [val] ([want_val]) or [train] (otherwise). *)
Fixpoint written (want_val : bool) (i : nat) (photos : list PhotoRecord) : nat :=
  match photos with
  | [] => 0
  | photo_data :: rest =>
      (if usable interpolate gaussian path_exists imread photo_data
          && Bool.eqb (is_val i) want_val
       then 1 else 0)
      + written want_val (S i) rest
  end.

End Writes.

End Tree.

(** ** Theorems: score evaluator *)

Module ScoreFacts.
Import Score.

Lemma gtb_ltb (x : Z) : (x >? 0) = (0 <? x).
Proof. apply Z.gtb_ltb. Qed.

Lemma score_refines_rules (counts : gmap string Z) :
  calculate_package_detection_score counts = spec_score counts.
Proof.
  unfold calculate_package_detection_score, spec_score, spec_rules.
  cbn [first_match matches present value forallb].
  rewrite !gtb_ltb.
  repeat match goal with
         | |- context [0 <? get counts ?k 0] =>
             generalize (0 <? get counts k 0); intros []
         end; reflexivity.
Qed.

Lemma first_match_range (counts : gmap string Z) (rules : list rule) :
  Forall (fun r => (0 <= value r)%Q /\ (value r <= 1)%Q) rules ->
  (0 <= first_match counts rules)%Q /\ (first_match counts rules <= 1)%Q.
Proof.
  induction 1 as [| r rest Hr _ IH]; cbn [first_match].
  - split; discriminate.
  - destruct (matches counts r); [ exact Hr | exact IH ].
Qed.

Lemma spec_rules_range :
  Forall (fun r => (0 <= value r)%Q /\ (value r <= 1)%Q) spec_rules.
Proof. repeat constructor; discriminate. Qed.

(** C1: the score of every count map is the value of the first matching
    rule of the sixteen-rule decision list taken in the order of the
    specification, and [0.0] when none matches; the four sample maps score
    [0.0], [1.0], [0.8] and [0.0]; and the score always lies in [[0,1]]. *)
Theorem score_is_first_matching_rule :
  (forall counts : gmap string Z,
      calculate_package_detection_score counts = first_match counts spec_rules
      /\ (0 <= calculate_package_detection_score counts)%Q
      /\ (calculate_package_detection_score counts <= 1)%Q)
  /\ length spec_rules = 16%nat
  /\ calculate_package_detection_score
       (<["no_objects" := 1]> (<["pakke" := 5]> ∅)) = 0.0%Q
  /\ calculate_package_detection_score
       (<["pakke" := 1]> (<["postkasse" := 1]> (<["etikett" := 1]>
          (<["postkasseskilt" := 1]> ∅)))) = 1.0%Q
  /\ calculate_package_detection_score
       (<["etikett" := 1]> (<["postkasseskilt" := 1]> ∅)) = 0.8%Q
  /\ calculate_package_detection_score ∅ = 0.0%Q.
Proof.
  split; [ | repeat split; vm_compute; reflexivity ].
  intros counts. rewrite score_refines_rules. unfold spec_score.
  split; [ reflexivity | ].
  apply first_match_range, spec_rules_range.
Qed.

End ScoreFacts.

(** ** Theorems: Python formatting *)

Module PyFacts.
Import Py.

Lemma is_digit_digit (d : Z) : is_digit (digit d) = true.
Proof.
  unfold digit.
  pose proof (Z.mod_pos_bound d 10 ltac:(lia)) as Hd.
  assert (H : d mod 10 = 0 \/ d mod 10 = 1 \/ d mod 10 = 2 \/ d mod 10 = 3
              \/ d mod 10 = 4 \/ d mod 10 = 5 \/ d mod 10 = 6 \/ d mod 10 = 7
              \/ d mod 10 = 8 \/ d mod 10 = 9) by lia.
  repeat (destruct H as [-> | H]; [ reflexivity | ]).
  rewrite H. reflexivity.
Qed.

Lemma all_digits_frac6 (n : Z) : all_digits (frac6 n) = true.
Proof.
  unfold frac6. cbn [all_digits]. rewrite !is_digit_digit. reflexivity.
Qed.

Lemma length_frac6 (n : Z) : String.length (frac6 n) = 6%nat.
Proof. reflexivity. Qed.

Lemma all_digits_NilEmpty (u : Decimal.uint) :
  all_digits (NilEmpty.string_of_uint u) = true.
Proof. induction u; cbn [NilEmpty.string_of_uint all_digits]; auto. Qed.

Lemma all_digits_NilZero (u : Decimal.uint) :
  all_digits (NilZero.string_of_uint u) = true.
Proof.
  destruct u; try reflexivity; apply (all_digits_NilEmpty (_ _)).
Qed.

Lemma NilZero_nonempty (u : Decimal.uint) :
  exists c r, NilZero.string_of_uint u = String c r.
Proof. destruct u; cbn; eauto. Qed.

Lemma append_cons (c : ascii) (s t : string) : String c s ++ t = String c (s ++ t).
Proof. reflexivity. Qed.

Lemma append_nil (t : string) : EmptyString ++ t = t.
Proof. reflexivity. Qed.

(** A string of digits, then a point, then the fraction. *)
Lemma digits_point_six_app (ds fs : string) (seen : bool) :
  all_digits ds = true ->
  digits_point_six (ds ++ "." ++ fs) seen
  = (seen || negb (String.eqb ds EmptyString)) && (String.length fs =? 6)%nat && all_digits fs.
Proof.
  revert seen. induction ds as [| c ds IH]; intros seen Hds.
  - rewrite append_nil, append_cons, append_nil. cbn. rewrite orb_false_r. reflexivity.
  - cbn [all_digits] in Hds. apply andb_true_iff in Hds as [Hc Hds].
    rewrite append_cons. cbn [digits_point_six]. rewrite Hc, (IH true Hds).
    rewrite orb_true_r. reflexivity.
Qed.

Lemma six_decimals_digit_first (c : ascii) (r : string) :
  is_digit c = true -> six_decimals (String c r) = digits_point_six (String c r) false.
Proof.
  destruct c as [[] [] [] [] [] [] [] []]; intros H; try reflexivity; discriminate H.
Qed.

Lemma six_decimals_fixed6 (negative : bool) (n : Z) :
  six_decimals (fixed6 negative n) = true.
Proof.
  unfold fixed6, str_N.
  set (u := N.to_uint _).
  assert (Hgo : digits_point_six (NilZero.string_of_uint u ++ "." ++ frac6 n) false = true).
  { rewrite digits_point_six_app by apply all_digits_NilZero.
    rewrite all_digits_frac6, length_frac6.
    destruct (NilZero_nonempty u) as (c & r & ->). reflexivity. }
  destruct negative.
  - exact Hgo.
  - rewrite append_nil. destruct (NilZero_nonempty u) as (c & r & Hu).
    pose proof (all_digits_NilZero u) as Hd. rewrite Hu in Hgo, Hd |- *.
    cbn [all_digits] in Hd. apply andb_true_iff in Hd as [Hc _].
    rewrite append_cons in Hgo |- *. rewrite six_decimals_digit_first by exact Hc.
    exact Hgo.
Qed.

(** [f"{x:.6f}"] has exactly six decimals when [x] is finite, and only then. *)
Lemma six_decimals_format_6f (x : float) :
  six_decimals (format_6f x) = is_finite x.
Proof.
  destruct x as [s | [] | | s m e]; cbn [format_6f is_finite];
    try reflexivity; apply six_decimals_fixed6.
Qed.

End PyFacts.

(** ** Theorems: label encoder *)

Module EncoderFacts.
Import Py Cv Converter Encoder PyFacts.

Lemma index_Some (name : string) (classes : list string) (k : nat) :
  index name classes = Some k ->
  classes !! k = Some name /\ (k < length classes)%nat.
Proof.
  revert k. induction classes as [| c rest IH]; intros k; cbn [index]; [ discriminate | ].
  destruct (String.eqb_spec c name) as [-> | Hne].
  - intros [= <-]. split; [ reflexivity | cbn; lia ].
  - destruct (index name rest) as [j |]; [ | discriminate ].
    intros [= <-]. destruct (IH j eq_refl) as [Hj Hlt].
    split; [ exact Hj | cbn; lia ].
Qed.

Lemma contains_index (name : string) (classes : list string) :
  contains classes name = true -> exists k, index name classes = Some k.
Proof.
  unfold contains. induction classes as [| c rest IH]; cbn [existsb index]; [ discriminate | ].
  rewrite (String.eqb_sym name c).
  destruct (String.eqb c name); [ eauto | ].
  cbn [orb]. intros H. destruct (IH H) as [k ->]. cbn. eauto.
Qed.

Lemma index_contains (name : string) (classes : list string) (k : nat) :
  index name classes = Some k -> contains classes name = true.
Proof.
  unfold contains. revert k.
  induction classes as [| c rest IH]; intros k; cbn [existsb index]; [ discriminate | ].
  rewrite (String.eqb_sym name c).
  destruct (String.eqb c name); [ reflexivity | ].
  destruct (index name rest) as [j |]; [ | discriminate ].
  intros _. exact (IH j eq_refl).
Qed.

Lemma box_line_has_shape (bbox : BoundingBox) (h w : Z) (line : string) :
  box_line bbox h w = Some line -> box_line_shape line.
Proof.
  unfold box_line. intros H.
  destruct (index (bbox_label bbox) target_classes) as [class_id |] eqn:Hi; [ | discriminate ].
  cbn [mbind option_bind] in H.
  repeat match type of H with
         | (match ?o with Some _ => _ | None => _ end) = Some _ =>
             destruct o eqn:?; [ cbn [mbind option_bind] in H | discriminate ]
         | (?o ≫= _) = Some _ =>
             destruct o eqn:?; [ cbn [mbind option_bind] in H | discriminate ]
         end.
  injection H as <-.
  apply index_Some in Hi as [_ Hlt].
  eexists class_id, _, _, _, _.
  split; [ exact Hlt | ]. split; [ reflexivity | ].
  repeat split; apply six_decimals_format_6f.
Qed.

Lemma write_boxes_In (boxes : list BoundingBox) (h w : Z) (line : string) :
  In line (fst (write_boxes boxes h w)) ->
  exists bbox, In bbox boxes /\ known bbox = true /\ box_line bbox h w = Some line.
Proof.
  induction boxes as [| bbox rest IH]; cbn [write_boxes]; [ intros [] | ].
  destruct (contains target_classes (bbox_label bbox)) eqn:Hk.
  - destruct (box_line bbox h w) as [l |] eqn:Hl; [ | intros [] ].
    destruct (write_boxes rest h w) as [lines o]. cbn [fst In].
    intros [<- | Hin].
    + exists bbox. cbn. auto.
    + destruct (IH Hin) as (b & Hb & Hkb & Hlb). exists b. cbn. auto.
  - intros Hin. destruct (IH Hin) as (b & Hb & Hkb & Hlb). exists b. cbn. auto.
Qed.

Lemma write_boxes_filter (boxes : list BoundingBox) (h w : Z) :
  write_boxes boxes h w = write_boxes (List.filter known boxes) h w.
Proof.
  induction boxes as [| bbox rest IH]; [ reflexivity | ].
  cbn [write_boxes List.filter]. unfold known at 1.
  destruct (contains target_classes (bbox_label bbox)) eqn:Hk.
  - cbn [write_boxes]. rewrite Hk, IH. reflexivity.
  - exact IH.
Qed.

Lemma write_boxes_length (boxes : list BoundingBox) (h w : Z) :
  (length (fst (write_boxes boxes h w)) <= length (List.filter known boxes))%nat.
Proof.
  induction boxes as [| bbox rest IH]; [ cbn; lia | ].
  cbn [write_boxes List.filter]. unfold known at 1.
  destruct (contains target_classes (bbox_label bbox)).
  - destruct (box_line bbox h w); [ | cbn; lia ].
    destruct (write_boxes rest h w). cbn in *. lia.
  - exact IH.
Qed.

Lemma write_boxes_unknown (boxes : list BoundingBox) (h w : Z) :
  Forall (fun bbox => known bbox = false) boxes ->
  write_boxes boxes h w = ([], Returned).
Proof.
  induction 1 as [| bbox rest Hb _ IH]; [ reflexivity | ].
  cbn [write_boxes]. unfold known in Hb. rewrite Hb. exact IH.
Qed.

(** In the frame of the converter, 640 by 640, no statement of the loop
    body raises. *)
Lemma box_line_640 (bbox : BoundingBox) :
  known bbox = true -> exists line, box_line bbox 640 640 = Some line.
Proof.
  unfold known. intros Hk. apply contains_index in Hk as [k Hk].
  unfold box_line. rewrite Hk. cbn [mbind option_bind].
  unfold float_div_int.
  change (of_int 2) with (Some (S754_finite false 4503599627370496 (-51))).
  change (of_int 640) with (Some float_640).
  cbn [mbind option_bind float_truediv is_zero]. eauto.
Qed.

Lemma write_boxes_640 (boxes : list BoundingBox) :
  exists lines,
    write_boxes boxes 640 640 = (lines, Returned)
    /\ Forall2 (fun bbox line => box_line bbox 640 640 = Some line)
               (List.filter known boxes) lines.
Proof.
  induction boxes as [| bbox rest (lines & Hw & Hf)].
  - exists []. split; [ reflexivity | constructor ].
  - cbn [write_boxes List.filter]. unfold known at 1.
    destruct (contains target_classes (bbox_label bbox)) eqn:Hk.
    + destruct (box_line_640 bbox Hk) as [line Hl]. rewrite Hl, Hw.
      exists (line :: lines). split; [ reflexivity | constructor; assumption ].
    + exists lines. split; assumption.
Qed.

(** Counterexample to C2 as stated: in whole-image mode the line is written
    with the literal text [0.5 0.5 1.0 1.0], one decimal each, so the label
    file of a photo without boxes and with label [pakke] is not the
    six-decimal line; and in box mode a coordinate that is not finite is
    printed as [inf], without decimals. *)
Lemma whole_image_line_is_not_six_decimals :
  label_file pakke_photo (640, 640, 3) = "1 0.5 0.5 1.0 1.0" ++ newline
  /\ label_file pakke_photo (640, 640, 3)
     <> "1 0.500000 0.500000 1.000000 1.000000" ++ newline
  /\ label_file overflowing_photo (640, 640, 3)
     = "1 inf 0.500000 1.000000 1.000000" ++ newline.
Proof. repeat split; vm_compute; congruence. Qed.

(** C2 (amended): every line written in box mode is
    [classId cx cy w h] followed by a newline, with a class id of the table
    and each geometric value printed by [.6f], which gives exactly six
    decimals for every finite value (and only for those); in whole-image
    mode the line is [classId 0.5 0.5 1.0 1.0] followed by a newline; for a
    photo without boxes and with label [pakke] the label file is exactly
    [1 0.5 0.5 1.0 1.0] and a newline. *)
Theorem label_line_format :
  (forall (photo_data : PhotoRecord) (h w c : Z) (line : string),
      In line (fst (create_yolo_label photo_data (h, w, c))) ->
      match boundingBoxes photo_data with
      | _ :: _ => box_line_shape line
      | [] => exists class_id : nat,
                (class_id < length target_classes)%nat
                /\ line = str_nat class_id ++ " 0.5 0.5 1.0 1.0" ++ newline
      end)
  /\ (forall (photo_id path : string) (shape : Z * Z * Z),
         label_file {| id := photo_id; imagePath := path;
                       label := Some "pakke"; boundingBoxes := [] |} shape
         = "1 0.5 0.5 1.0 1.0" ++ newline).
Proof.
  split.
  - intros photo_data h w c line. unfold create_yolo_label.
    destruct (boundingBoxes photo_data) as [| bbox rest].
    + destruct (contains target_classes (default "no_objects" (label photo_data))) eqn:Hk.
      * destruct (index _ target_classes) as [k |] eqn:Hi; [ | intros [] ].
        intros [<- | []]. exists k. split; [ | reflexivity ].
        apply index_Some in Hi as [_ Hlt]. exact Hlt.
      * intros [<- | []]. exists 0%nat. split; [ cbn; lia | reflexivity ].
    + intros Hin. apply write_boxes_In in Hin as (b & _ & _ & Hl).
      exact (box_line_has_shape _ _ _ _ Hl).
  - intros photo_id path [[h w] c]. reflexivity.
Qed.

Lemma label_line_format_witness :
  In ("1 0.5 0.5 1.0 1.0" ++ newline) (fst (create_yolo_label pakke_photo (640, 640, 3)))
  /\ exists class_id : nat,
       (class_id < length target_classes)%nat
       /\ "1 0.5 0.5 1.0 1.0" ++ newline = str_nat class_id ++ " 0.5 0.5 1.0 1.0" ++ newline.
Proof.
  assert (H : In ("1 0.5 0.5 1.0 1.0" ++ newline)
                 (fst (create_yolo_label pakke_photo (640, 640, 3)))).
  { left. reflexivity. }
  split; [ exact H | ].
  exact (proj1 label_line_format pakke_photo 640 640 3 _ H).
Defined.



(** C5: in box mode a box whose label is not in the class table is dropped
    without a line and without an error: the call does what it does on the
    known boxes alone and writes at most one line for each of them (in the
    640 by 640 frame of the converter exactly one, and the call returns);
    the whole-image line is never written, so that a record whose boxes are
    all unknown gets an empty label file and the call returns normally. *)
Theorem unknown_boxes_are_dropped (photo_data : PhotoRecord) (h w c : Z) :
  boundingBoxes photo_data <> [] ->
  create_yolo_label photo_data (h, w, c)
  = write_boxes (List.filter known (boundingBoxes photo_data)) h w
  /\ (length (fst (create_yolo_label photo_data (h, w, c)))
      <= length (List.filter known (boundingBoxes photo_data)))%nat
  /\ (exists lines,
         create_yolo_label photo_data (640, 640, 3) = (lines, Returned)
         /\ Forall2 (fun bbox line => box_line bbox 640 640 = Some line)
                    (List.filter known (boundingBoxes photo_data)) lines)
  /\ (Forall (fun bbox => known bbox = false) (boundingBoxes photo_data) ->
      create_yolo_label photo_data (h, w, c) = ([], Returned)
      /\ label_file photo_data (h, w, c) = EmptyString).
Proof.
  intros Hne. unfold label_file, create_yolo_label.
  destruct (boundingBoxes photo_data) as [| bbox rest] eqn:Hb; [ congruence | ].
  split; [ apply write_boxes_filter | ].
  split; [ apply write_boxes_length | ].
  split; [ apply write_boxes_640 | ].
  intros Hall. rewrite (write_boxes_unknown _ h w Hall). split; reflexivity.
Qed.

Lemma unknown_boxes_are_dropped_witness :
  boundingBoxes unknown_box_photo <> []
  /\ create_yolo_label unknown_box_photo (640, 640, 3) = ([], Returned)
  /\ label_file unknown_box_photo (640, 640, 3) = EmptyString.
Proof.
  assert (Hne : boundingBoxes unknown_box_photo <> []) by discriminate.
  split; [ exact Hne | ].
  apply (unknown_boxes_are_dropped unknown_box_photo 640 640 3 Hne).
  repeat constructor.
Defined.

(** C6: in whole-image mode exactly one line is written, with the geometry
    [0.5 0.5 1.0 1.0]; its class id is the index of the record's label when
    the label is in the class table, and 0 when the label is unknown or
    absent; the call returns normally. *)
Theorem whole_image_line (photo_data : PhotoRecord) (shape : Z * Z * Z) :
  boundingBoxes photo_data = [] ->
  exists class_id : nat,
    create_yolo_label photo_data shape
    = ([str_nat class_id ++ " 0.5 0.5 1.0 1.0" ++ newline], Returned)
    /\ match label photo_data with
       | Some name =>
           if contains target_classes name
           then index name target_classes = Some class_id
                /\ target_classes !! class_id = Some name
           else class_id = 0%nat
       | None => class_id = 0%nat
       end.
Proof.
  intros Hb. destruct shape as [[h w] c]. unfold create_yolo_label. rewrite Hb.
  destruct (label photo_data) as [name |].
  - change (default "no_objects" (Some name)) with name.
    destruct (contains target_classes name) eqn:Hk.
    + destruct (contains_index _ _ Hk) as [k Hi]. rewrite Hi.
      exists k. split; [ reflexivity | ].
      split; [ reflexivity | apply (index_Some _ _ _ Hi) ].
    + exists 0%nat. split; reflexivity.
  - exists 0%nat. split; reflexivity.
Qed.

Lemma whole_image_line_witness :
  boundingBoxes pakke_photo = []
  /\ exists class_id : nat,
       create_yolo_label pakke_photo (640, 640, 3)
       = ([str_nat class_id ++ " 0.5 0.5 1.0 1.0" ++ newline], Returned)
       /\ index "pakke" target_classes = Some class_id
       /\ target_classes !! class_id = Some "pakke".
Proof.
  split; [ reflexivity | ].
  exact (whole_image_line pakke_photo (640, 640, 3) eq_refl).
Defined.

End EncoderFacts.

(** ** Theorems: letterbox transform and photometric correction *)

Module LetterboxFacts.
Import Cv Letterbox.

Lemma value_saturate_cast (z : Z) : value (saturate_cast z) = clamp 0 255 z.
Proof.
  unfold value, saturate_cast, clamp.
  destruct (Byte.of_N _) as [b |] eqn:Hb.
  - apply Byte.to_of_N in Hb. rewrite Hb. lia.
  - apply Byte.of_N_None_iff in Hb. lia.
Qed.

Lemma value_range (b : byte) : 0 <= value b <= 255.
Proof. unfold value. pose proof (Byte.to_N_bounded b). lia. Qed.

Lemma value_inj (a b : byte) : value a = value b -> a = b.
Proof.
  unfold value. intros H. apply N2Z.inj in H.
  pose proof (Byte.of_to_N a) as Ha. rewrite H, Byte.of_to_N in Ha. congruence.
Qed.

(** The correction, value by value. *)
Lemma correction_value (v : byte) : value (correction v) = spec_correction (value v).
Proof. destruct v; vm_compute; reflexivity. Qed.

Lemma correction_error (v : byte) :
  (Qabs (inject_Z (value (correction v)) - (inject_Z (value v) * 0.95 + 5)) <= 1 # 2)%Q.
Proof. apply Qle_bool_iff. destruct v; vm_compute; reflexivity. Qed.

Lemma correction_fixed_point (v : byte) :
  Byte.eqb (correction v) v = (90 <=? value v) && (value v <=? 110).
Proof. destruct v; vm_compute; reflexivity. Qed.

Lemma enhance_px (gaussian : image -> Z * Z -> image) (img : image) (r c ch : Z) :
  px (enhance_for_iphone_photos gaussian img) r c ch = correction (px img r c ch).
Proof. reflexivity. Qed.

Lemma enhance_shape (gaussian : image -> Z * Z -> image) (img : image) :
  rows (enhance_for_iphone_photos gaussian img) = rows img
  /\ cols (enhance_for_iphone_photos gaussian img) = cols img.
Proof. split; reflexivity. Qed.

Lemma slice_inside (n start len : Z) :
  0 <= start -> 0 <= len -> start + len <= n ->
  slice n start (start + len) = (start, len).
Proof.
  intros H1 H2 H3. unfold slice, slice_bound.
  destruct (Z.ltb_spec start 0); [ lia | ].
  destruct (Z.ltb_spec (start + len) 0); [ lia | ].
  f_equal; lia.
Qed.

Lemma optimize_when_it_fits
    (interpolate : image -> Z * Z -> Z -> Z -> Z -> byte)
    (gaussian : image -> Z * Z -> image) (img : image) (new_w new_h : Z) :
  new_size 640 (cols img) (rows img) = Some (new_w, new_h) ->
  1 <= rows img -> 1 <= cols img ->
  1 <= new_w <= 640 -> 1 <= new_h <= 640 ->
  optimize_image_for_yolo interpolate gaussian img
  = Some (enhance_for_iphone_photos gaussian (canvas interpolate img new_w new_h)).
Proof.
  intros Hsize Hr Hc Hw Hh.
  unfold optimize_image_for_yolo. rewrite Hsize. cbn [mbind option_bind].
  unfold resize.
  destruct (Z.ltb_spec 0 new_w); [ | lia ].
  destruct (Z.ltb_spec 0 new_h); [ | lia ].
  destruct (Z.ltb_spec 0 (rows img)); [ | lia ].
  destruct (Z.ltb_spec 0 (cols img)); [ | lia ].
  cbn [andb mbind option_bind].
  unfold np_set_slice. cbn [rows cols np_full].
  assert (Hph : 0 <= (640 - new_h) / 2 /\ (640 - new_h) / 2 + new_h <= 640)
    by (split; [ apply Z.div_pos; lia | apply Z.le_trans with ((640 - new_h) + new_h); [ | lia ];
                 apply Z.add_le_mono_r, Z.div_le_upper_bound; lia ]).
  assert (Hpw : 0 <= (640 - new_w) / 2 /\ (640 - new_w) / 2 + new_w <= 640)
    by (split; [ apply Z.div_pos; lia | apply Z.le_trans with ((640 - new_w) + new_w); [ | lia ];
                 apply Z.add_le_mono_r, Z.div_le_upper_bound; lia ]).
  rewrite !slice_inside by lia.
  unfold broadcasts. rewrite !Z.eqb_refl. cbn [orb andb px].
  reflexivity.
Qed.

Lemma optimize_when_empty
    (interpolate : image -> Z * Z -> Z -> Z -> Z -> byte)
    (gaussian : image -> Z * Z -> image) (img : image) (new_w new_h : Z) :
  new_size 640 (cols img) (rows img) = Some (new_w, new_h) ->
  new_w <= 0 \/ new_h <= 0 ->
  optimize_image_for_yolo interpolate gaussian img = None.
Proof.
  intros Hsize Hempty.
  unfold optimize_image_for_yolo. rewrite Hsize. cbn [mbind option_bind].
  unfold resize.
  destruct (Z.ltb_spec 0 new_w); [ | reflexivity ].
  destruct (Z.ltb_spec 0 new_h); [ | reflexivity ].
  lia.
Qed.

Lemma canvas_px
    (interpolate : image -> Z * Z -> Z -> Z -> Z -> byte)
    (img : image) (new_w new_h r c ch : Z) :
  px (canvas interpolate img new_w new_h) r c ch
  = if in_paste new_w new_h r c
    then interpolate img (new_w, new_h)
           (r - (640 - new_h) / 2) (c - (640 - new_w) / 2) ch
    else saturate_cast 114.
Proof.
  cbn [canvas px]. destruct (in_paste new_w new_h r c) eqn:Hin; [ | reflexivity ].
  unfold in_paste in Hin.
  apply andb_true_iff in Hin as [Hin Hc2]. apply andb_true_iff in Hin as [Hin Hc1].
  apply andb_true_iff in Hin as [Hr1 Hr2].
  destruct (Z.eqb_spec new_h 1) as [-> | _]; destruct (Z.eqb_spec new_w 1) as [-> | _];
    f_equal; lia.
Qed.

(** Counterexample to C3 as stated: on a 5 by 9 image the code resizes to
    width [int(355.55...) = 355] while [round(W * scale)] is 356; and on a
    1 by 1000 image the width is [int(0.64) = 0], for which the resize
    raises, so that no 640 by 640 output is produced. *)
Lemma letterbox_truncates_not_rounds :
  new_size 640 5 9 = Some (355, 640)
  /\ spec_new_size 640 5 9 = (356, 640)
  /\ new_size 640 1 1000 = Some (0, 640)
  /\ optimize_image_for_yolo sample_interpolate sample_gaussian white_1x1000 = None.
Proof. repeat split; vm_compute; reflexivity. Qed.

(** C3 (amended): for an image of width [W >= 1] and height [H >= 1] and
    [T = 640], the transform computes [scale = min(T/W, T/H)] in floats and
    the size [newW = int(W * scale)], [newH = int(H * scale)] by truncation
    ([new_size]); when both lie in [1..T] it resizes to that size, fills a
    [T] by [T] canvas with 114 in every channel, pastes the resized image at
    the offset [((T - newW) / 2, (T - newH) / 2)] taken with floor division,
    and returns the [T] by [T] canvas after the photometric correction; when
    [newW] or [newH] is 0 the resize raises. *)
Theorem letterbox_geometry
    (interpolate : image -> Z * Z -> Z -> Z -> Z -> byte)
    (gaussian : image -> Z * Z -> image) (img : image) (new_w new_h : Z) :
  1 <= rows img -> 1 <= cols img ->
  new_size 640 (cols img) (rows img) = Some (new_w, new_h) ->
  (1 <= new_w <= 640 -> 1 <= new_h <= 640 ->
   exists img_padded out,
     optimize_image_for_yolo interpolate gaussian img = Some out
     /\ out = enhance_for_iphone_photos gaussian img_padded
     /\ rows img_padded = 640 /\ cols img_padded = 640
     /\ rows out = 640 /\ cols out = 640
     /\ forall r c ch,
          px img_padded r c ch
          = if (((640 - new_h) / 2 <=? r) && (r <? (640 - new_h) / 2 + new_h)
                && ((640 - new_w) / 2 <=? c) && (c <? (640 - new_w) / 2 + new_w))
            then interpolate img (new_w, new_h)
                   (r - (640 - new_h) / 2) (c - (640 - new_w) / 2) ch
            else saturate_cast 114)
  /\ (new_w <= 0 \/ new_h <= 0 ->
      optimize_image_for_yolo interpolate gaussian img = None).
Proof.
  intros Hr Hc Hsize. split.
  - intros Hw Hh.
    exists (canvas interpolate img new_w new_h),
           (enhance_for_iphone_photos gaussian (canvas interpolate img new_w new_h)).
    split; [ apply optimize_when_it_fits; assumption | ].
    split; [ reflexivity | ].
    repeat (split; [ reflexivity | ]).
    intros r c ch. apply canvas_px.
  - apply optimize_when_empty. exact Hsize.
Qed.

Lemma letterbox_geometry_witness :
  1 <= rows white_5x9 /\ 1 <= cols white_5x9
  /\ new_size 640 (cols white_5x9) (rows white_5x9) = Some (355, 640)
  /\ exists img_padded out,
       optimize_image_for_yolo sample_interpolate sample_gaussian white_5x9 = Some out
       /\ rows out = 640 /\ cols out = 640
       /\ px img_padded 0 141 0 = saturate_cast 114
       /\ px img_padded 0 142 0 = xff.
Proof.
  assert (Hr : 1 <= rows white_5x9) by (cbn; lia).
  assert (Hc : 1 <= cols white_5x9) by (cbn; lia).
  assert (Hs : new_size 640 (cols white_5x9) (rows white_5x9) = Some (355, 640))
    by (vm_compute; reflexivity).
  repeat (split; [ assumption | ]).
  destruct (proj1 (letterbox_geometry sample_interpolate sample_gaussian
                     white_5x9 355 640 Hr Hc Hs) ltac:(lia) ltac:(lia))
    as (img_padded & out & Ho & _ & _ & _ & Hro & Hco & Hpx).
  exists img_padded, out.
  split; [ exact Ho | ]. split; [ exact Hro | ]. split; [ exact Hco | ].
  split; rewrite Hpx; reflexivity.
Defined.

(** Whatever the transform returns is the correction of a 640 by 640
    canvas. *)
Lemma optimize_is_enhanced
    (interpolate : image -> Z * Z -> Z -> Z -> Z -> byte)
    (gaussian : image -> Z * Z -> image) (img out : image) :
  optimize_image_for_yolo interpolate gaussian img = Some out ->
  exists img_padded,
    rows img_padded = 640 /\ cols img_padded = 640
    /\ out = enhance_for_iphone_photos gaussian img_padded.
Proof.
  unfold optimize_image_for_yolo.
  destruct (new_size 640 (cols img) (rows img)) as [[new_w new_h] |]; [ | discriminate ].
  cbn [mbind option_bind].
  destruct (resize interpolate img (new_w, new_h)) as [img_resized |]; [ | discriminate ].
  cbn [mbind option_bind].
  destruct (np_set_slice _ _ _ _ _ img_resized) as [img_padded |] eqn:Hp; [ | discriminate ].
  cbn [mbind option_bind]. intros [= <-].
  exists img_padded.
  assert (Hshape : rows img_padded = 640 /\ cols img_padded = 640).
  { unfold np_set_slice in Hp.
    destruct (slice _ _ _), (slice _ _ _), (_ && _); [ | discriminate ].
    injection Hp as <-. split; reflexivity. }
  destruct Hshape as [Hr Hc]. split; [ exact Hr | ]. split; [ exact Hc | reflexivity ].
Qed.

(** C7: the correction is applied to every output of the transform, without
    a condition, to the padded canvas; it maps each channel value [v] to
    [clamp(v * 0.95 + 5, 0, 255)] with the constants fixed in the code,
    the result being the integer nearest to that value (within one half of
    it), and keeps the shape. *)
Theorem photometric_correction_is_unconditional :
  (forall (gaussian : image -> Z * Z -> image) (img : image) (r c ch : Z),
      rows (enhance_for_iphone_photos gaussian img) = rows img
      /\ cols (enhance_for_iphone_photos gaussian img) = cols img
      /\ value (px (enhance_for_iphone_photos gaussian img) r c ch)
         = clamp 0 255 (nearest (inject_Z (value (px img r c ch)) * 0.95 + 5))
      /\ (Qabs (inject_Z (value (px (enhance_for_iphone_photos gaussian img) r c ch))
                - (inject_Z (value (px img r c ch)) * 0.95 + 5)) <= 1 # 2)%Q)
  /\ (forall (interpolate : image -> Z * Z -> Z -> Z -> Z -> byte)
             (gaussian : image -> Z * Z -> image) (img out : image),
         optimize_image_for_yolo interpolate gaussian img = Some out ->
         exists img_padded,
           rows img_padded = 640 /\ cols img_padded = 640
           /\ out = enhance_for_iphone_photos gaussian img_padded).
Proof.
  split.
  - intros gaussian img r c ch.
    split; [ reflexivity | ]. split; [ reflexivity | ].
    rewrite enhance_px. split; [ apply correction_value | apply correction_error ].
  - intros interpolate gaussian img out. apply optimize_is_enhanced.
Qed.

Lemma photometric_correction_is_unconditional_witness :
  exists out img_padded,
    optimize_image_for_yolo sample_interpolate sample_gaussian black_640 = Some out
    /\ rows img_padded = 640 /\ cols img_padded = 640
    /\ out = enhance_for_iphone_photos sample_gaussian img_padded.
Proof.
  destruct (optimize_image_for_yolo sample_interpolate sample_gaussian black_640)
    as [out |] eqn:Ho.
  - destruct (proj2 photometric_correction_is_unconditional _ _ _ _ Ho)
      as (img_padded & H).
    exists out, img_padded. split; [ reflexivity | exact H ].
  - vm_compute in Ho. discriminate Ho.
Defined.

Lemma sample_interpolate_copies : copies_at_same_size sample_interpolate.
Proof. intros img r c ch _. reflexivity. Qed.

Lemma new_size_square : new_size 640 640 640 = Some (640, 640).
Proof. vm_compute. reflexivity. Qed.

Lemma in_paste_square (r c : Z) :
  0 <= r < 640 -> 0 <= c < 640 -> in_paste 640 640 r c = true.
Proof.
  intros Hr Hc. unfold in_paste. change ((640 - 640) / 2) with 0.
  destruct (Z.leb_spec 0 r); [ | lia ]. destruct (Z.ltb_spec r (0 + 640)); [ | lia ].
  destruct (Z.leb_spec 0 c); [ | lia ]. destruct (Z.ltb_spec c (0 + 640)); [ | lia ].
  reflexivity.
Qed.

(** On a 640 by 640 image the transform is the correction alone. *)
Lemma optimize_square
    (interpolate : image -> Z * Z -> Z -> Z -> Z -> byte)
    (gaussian : image -> Z * Z -> image) (img : image) :
  copies_at_same_size interpolate -> rows img = 640 -> cols img = 640 ->
  exists out,
    optimize_image_for_yolo interpolate gaussian img = Some out
    /\ rows out = 640 /\ cols out = 640
    /\ forall r c ch, in_shape img r c ch -> px out r c ch = correction (px img r c ch).
Proof.
  intros Hcopy Hr Hc.
  exists (enhance_for_iphone_photos gaussian (canvas interpolate img 640 640)).
  split.
  - apply optimize_when_it_fits; try lia. rewrite Hr, Hc. exact new_size_square.
  - split; [ reflexivity | ]. split; [ reflexivity | ].
    intros r c ch Hin. rewrite enhance_px, canvas_px.
    pose proof Hin as (Hir & Hic & _). rewrite Hr in Hir. rewrite Hc in Hic.
    rewrite in_paste_square by assumption.
    change ((640 - 640) / 2) with 0. rewrite !Z.sub_0_r.
    pose proof (Hcopy img r c ch Hin) as Hpx. rewrite Hr, Hc in Hpx.
    rewrite Hpx. reflexivity.
Qed.

Lemma correction_fixed_iff (v : byte) :
  correction v = v <-> 90 <= value v <= 110.
Proof.
  pose proof (correction_fixed_point v) as H. split.
  - intros Heq. rewrite Heq in H.
    assert (Ht : Byte.eqb v v = true) by (apply Byte.byte_dec_lb; reflexivity).
    rewrite Ht in H. symmetry in H. apply andb_true_iff in H as [H1 H2].
    apply Z.leb_le in H1, H2. lia.
  - intros [H1 H2]. apply Z.leb_le in H1, H2. rewrite H1, H2 in H.
    apply Byte.byte_dec_bl. exact H.
Qed.

(** Counterexample to C9 as stated: on the black 640 by 640 image the
    first application gives the value 5 in every channel and the second,
    applied to that output, gives 10: the two outputs differ. *)
Lemma letterbox_is_not_idempotent :
  rows black_640 = 640 /\ cols black_640 = 640 /\ uniform black_640
  /\ exists o1 o2,
       optimize_image_for_yolo sample_interpolate sample_gaussian black_640 = Some o1
       /\ optimize_image_for_yolo sample_interpolate sample_gaussian o1 = Some o2
       /\ value (px o1 0 0 0) = 5
       /\ value (px o2 0 0 0) = 10
       /\ ~ same_image o2 o1.
Proof.
  split; [ reflexivity | ]. split; [ reflexivity | ]. split; [ intros r c ch; reflexivity | ].
  destruct (optimize_square sample_interpolate sample_gaussian black_640
              sample_interpolate_copies eq_refl eq_refl) as (o1 & Ho1 & Hr1 & Hc1 & Hp1).
  destruct (optimize_square sample_interpolate sample_gaussian o1
              sample_interpolate_copies Hr1 Hc1) as (o2 & Ho2 & Hr2 & Hc2 & Hp2).
  assert (Hin0 : in_shape black_640 0 0 0) by (repeat split; cbn; lia).
  assert (Hin1 : in_shape o1 0 0 0) by (unfold in_shape; rewrite Hr1, Hc1; lia).
  assert (Hv1 : value (px o1 0 0 0) = 5) by (rewrite (Hp1 0 0 0 Hin0); reflexivity).
  assert (Hv2 : value (px o2 0 0 0) = 10).
  { rewrite (Hp2 0 0 0 Hin1), (Hp1 0 0 0 Hin0). reflexivity. }
  exists o1, o2. repeat (split; [ assumption | ]).
  intros (_ & _ & Hsame).
  assert (Hin2 : in_shape o2 0 0 0) by (unfold in_shape; rewrite Hr2, Hc2; lia).
  specialize (Hsame 0 0 0 Hin2). rewrite Hsame in Hv2. lia.
Qed.

(** C9 (amended): on an image that is already 640 by 640 the transform
    computes the size 640 by 640 (scale 1) and adds no padding, so that its
    output is the photometric correction of the input; applied to its own
    output it applies the correction once more, which leaves a channel value
    as it is exactly when that value lies in [90..110]: the transform is the
    identity in its geometry, and not idempotent as a whole. *)
Theorem letterbox_on_square_image
    (interpolate : image -> Z * Z -> Z -> Z -> Z -> byte)
    (gaussian : image -> Z * Z -> image) (img : image) :
  copies_at_same_size interpolate -> rows img = 640 -> cols img = 640 ->
  new_size 640 (cols img) (rows img) = Some (640, 640)
  /\ exists o1 o2,
       optimize_image_for_yolo interpolate gaussian img = Some o1
       /\ optimize_image_for_yolo interpolate gaussian o1 = Some o2
       /\ rows o1 = 640 /\ cols o1 = 640 /\ rows o2 = 640 /\ cols o2 = 640
       /\ forall r c ch,
            in_shape img r c ch ->
            px o1 r c ch = correction (px img r c ch)
            /\ px o2 r c ch = correction (px o1 r c ch)
            /\ (px o2 r c ch = px o1 r c ch <-> 90 <= value (px o1 r c ch) <= 110).
Proof.
  intros Hcopy Hr Hc.
  split; [ rewrite Hr, Hc; exact new_size_square | ].
  destruct (optimize_square interpolate gaussian img Hcopy Hr Hc)
    as (o1 & Ho1 & Hr1 & Hc1 & Hp1).
  destruct (optimize_square interpolate gaussian o1 Hcopy Hr1 Hc1)
    as (o2 & Ho2 & Hr2 & Hc2 & Hp2).
  exists o1, o2. repeat (split; [ assumption | ]).
  intros r c ch Hin.
  assert (Hin1 : in_shape o1 r c ch).
  { unfold in_shape in *. rewrite Hr1, Hc1. rewrite Hr, Hc in Hin. exact Hin. }
  split; [ exact (Hp1 r c ch Hin) | ].
  split; [ exact (Hp2 r c ch Hin1) | ].
  rewrite (Hp2 r c ch Hin1). apply correction_fixed_iff.
Qed.

Lemma letterbox_on_square_image_witness :
  copies_at_same_size sample_interpolate
  /\ rows black_640 = 640 /\ cols black_640 = 640
  /\ exists o1 o2,
       optimize_image_for_yolo sample_interpolate sample_gaussian black_640 = Some o1
       /\ optimize_image_for_yolo sample_interpolate sample_gaussian o1 = Some o2
       /\ px o1 0 0 0 = correction x00
       /\ px o2 0 0 0 = correction (px o1 0 0 0).
Proof.
  split; [ exact sample_interpolate_copies | ].
  split; [ reflexivity | ]. split; [ reflexivity | ].
  destruct (proj2 (letterbox_on_square_image sample_interpolate sample_gaussian black_640
                     sample_interpolate_copies eq_refl eq_refl))
    as (o1 & o2 & Ho1 & Ho2 & _ & _ & _ & _ & Hpx).
  exists o1, o2. split; [ exact Ho1 | ]. split; [ exact Ho2 | ].
  assert (Hin : in_shape black_640 0 0 0) by (repeat split; cbn; lia).
  destruct (Hpx 0 0 0 Hin) as (H1 & H2 & _).
  split; [ exact H1 | exact H2 ].
Defined.

End LetterboxFacts.

(** ** Theorems: conversion loop *)

Module RunFacts.
Import Cv Converter Encoder Run EncoderFacts.

Lemma is_val_count (n : nat) :
  length (List.filter is_val (seq 0 n)) = ceil_fifth n.
Proof.
  unfold ceil_fifth, is_val. induction n as [| n IH]; [ reflexivity | ].
  rewrite seq_S, List.filter_app, length_app, IH. cbn [List.filter Nat.add].
  pose proof (Nat.div_mod_eq n 5). pose proof (Nat.mod_upper_bound n 5).
  pose proof (Nat.div_mod_eq (n + 4) 5). pose proof (Nat.mod_upper_bound (n + 4) 5).
  pose proof (Nat.div_mod_eq (S (n + 4)) 5). pose proof (Nat.mod_upper_bound (S (n + 4)) 5).
  destruct (Nat.eqb_spec (n mod 5) 0) as [Hn | Hn]; cbn [length]; lia.
Qed.

Lemma create_yolo_label_640 (photo_data : PhotoRecord) :
  snd (create_yolo_label photo_data (640, 640, 3)) = Returned.
Proof.
  unfold create_yolo_label.
  destruct (boundingBoxes photo_data) as [| bbox rest].
  - destruct (contains target_classes _) eqn:Hk; [ | reflexivity ].
    destruct (contains_index _ _ Hk) as [k ->]. reflexivity.
  - destruct (write_boxes_640 (bbox :: rest)) as (lines & -> & _). reflexivity.
Qed.

Lemma map_fst_imap {A B : Type} (g : nat -> B) (l : list A) :
  map fst (imap (fun i a => (a, g i)) l) = l.
Proof.
  revert g. induction l as [| a rest IH]; intros g; [ reflexivity | ].
  cbn [imap map fst]. f_equal. apply (IH (g ∘ S)).
Qed.

Section Loop.

Variable interpolate : image -> Z * Z -> Z -> Z -> Z -> byte.
Variable gaussian : image -> Z * Z -> image.
Variable path_exists : string -> bool.
Variable imread : string -> option image.
Variable output_path : string.
Variable output_path_absolute : string.

#[local] Abbreviation process_photo' :=
  (process_photo interpolate gaussian path_exists imread output_path).
#[local] Abbreviation loop_body' :=
  (loop_body interpolate gaussian path_exists imread output_path).
#[local] Abbreviation loop' :=
  (loop interpolate gaussian path_exists imread output_path).
#[local] Abbreviation usable' := (usable interpolate gaussian path_exists imread).

(** [process_photo] succeeds exactly on the usable records, never touches
    the history, and writes nothing when it fails. *)
Lemma process_photo_result (photo_data : PhotoRecord) (split : string) (w : world) :
  fst (process_photo' photo_data split w) = usable' photo_data
  /\ calls (snd (process_photo' photo_data split w)) = calls w
  /\ (usable' photo_data = false -> snd (process_photo' photo_data split w) = w).
Proof.
  unfold process_photo, usable.
  destruct (path_exists (imagePath photo_data)); cbn [negb andb]; [ | auto ].
  destruct (imread (imagePath photo_data)) as [img |]; [ | auto ].
  destruct (optimize_image_for_yolo interpolate gaussian img) as [out |] eqn:Ho; [ | auto ].
  destruct (LetterboxFacts.optimize_is_enhanced _ _ _ _ Ho) as (padded & Hr & Hc & ->).
  destruct (LetterboxFacts.enhance_shape gaussian padded) as [-> ->]. rewrite Hr, Hc.
  pose proof (create_yolo_label_640 photo_data) as Hret.
  destruct (create_yolo_label photo_data (640, 640, 3)) as [lines o].
  cbn [snd] in Hret. subst o. cbn. split; [ reflexivity | ]. split; [ reflexivity | discriminate ].
Qed.

Lemma loop_body_calls (i : nat) (photo_data : PhotoRecord) (c : counters) (w : world) :
  calls (snd (loop_body' i photo_data (c, w))) = (calls w ++ [(photo_data, split_of i)])%list.
Proof.
  unfold loop_body, split_of.
  pose proof (process_photo_result photo_data (if is_val i then "val" else "train")
                (record_call w photo_data (if is_val i then "val" else "train")))
    as (_ & Hcalls & _).
  destruct (process_photo' _ _ _) as [success w']. cbn [snd] in Hcalls.
  destruct success, (is_val i); cbn [snd]; exact Hcalls.
Qed.

(** What one iteration does to the counters. *)
Lemma loop_body_counters (i : nat) (photo_data : PhotoRecord) (c : counters) (w : world) :
  let c' := fst (loop_body' i photo_data (c, w)) in
  if usable' photo_data then
    if is_val i
    then train_count c' = train_count c /\ val_count c' = S (val_count c)
         /\ skipped_count c' = skipped_count c
    else train_count c' = S (train_count c) /\ val_count c' = val_count c
         /\ skipped_count c' = skipped_count c
  else train_count c' = train_count c /\ val_count c' = val_count c
       /\ skipped_count c' = S (skipped_count c).
Proof.
  unfold loop_body.
  pose proof (process_photo_result photo_data (if is_val i then "val" else "train")
                (record_call w photo_data (if is_val i then "val" else "train")))
    as (Hok & _ & _).
  destruct (process_photo' _ _ _) as [success w']. cbn [fst] in Hok. subst success.
  destruct (usable' photo_data), (is_val i); cbn; repeat split; lia.
Qed.

Lemma loop_calls (photos : list PhotoRecord) (i : nat) (c : counters) (w : world) :
  calls (snd (loop' i photos (c, w)))
  = (calls w ++ imap (fun k photo_data => (photo_data, split_of (i + k))) photos)%list.
Proof.
  revert i c w. induction photos as [| photo_data rest IH]; intros i c w.
  - cbn. rewrite app_nil_r. reflexivity.
  - cbn [loop imap].
    pose proof (loop_body_calls i photo_data c w) as Hb.
    destruct (loop_body' i photo_data (c, w)) as [c1 w1]. cbn [snd] in Hb.
    rewrite IH, Hb, <- app_assoc. cbn [app]. rewrite Nat.add_0_r.
    do 2 f_equal. apply imap_ext. intros k p _. cbn. f_equal. f_equal. lia.
Qed.

Lemma loop_counters (photos : list PhotoRecord) (i : nat) (c : counters) (w : world) :
  let c' := fst (loop' i photos (c, w)) in
  (train_count c' + val_count c' + skipped_count c'
   = train_count c + val_count c + skipped_count c + length photos)%nat
  /\ skipped_count c'
     = (skipped_count c + length (List.filter (fun p => negb (usable' p)) photos))%nat.
Proof.
  revert i c w. induction photos as [| photo_data rest IH]; intros i c w.
  - cbn. lia.
  - cbn [loop List.filter length].
    pose proof (loop_body_counters i photo_data c w) as Hb.
    destruct (loop_body' i photo_data (c, w)) as [c1 w1]. cbn [fst] in Hb.
    specialize (IH (S i) c1 w1). cbn zeta in IH. destruct IH as [IH1 IH2].
    cbn zeta. rewrite IH1, IH2.
    destruct (usable' photo_data), (is_val i); cbn [negb length]; lia.
Qed.

#[local] Abbreviation convert_app_data' :=
  (convert_app_data interpolate gaussian path_exists imread output_path
     output_path_absolute).

Lemma convert_manifest (photos : list PhotoRecord) (w : world) :
  convert_app_data' (Manifest photos) w
  = let st := loop' 0 photos
                (Counters 0 0 0, create_dataset_yaml output_path output_path_absolute w) in
    (ReturnTrue (train_count (fst st)) (val_count (fst st)) (skipped_count (fst st)),
     snd st).
Proof.
  unfold convert_app_data. destruct (loop' 0 photos _) as [c w']. reflexivity.
Qed.

Lemma convert_calls (photos : list PhotoRecord) (fs : gmap string file) :
  calls (snd (convert_app_data' (Manifest photos) (World fs [])))
  = imap (fun i photo_data => (photo_data, split_of i)) photos.
Proof. rewrite convert_manifest. cbn zeta. cbn [snd]. rewrite loop_calls. reflexivity. Qed.


(** C10: when the manifest is read the run returns with three counters whose
    sum is the number of photos, and each iteration of the loop adds one to
    exactly one of them: to [train_count] or [val_count] (by the index) for
    a usable record, to [skipped_count] otherwise. *)
Theorem counters_partition_the_photos :
  (forall (photos : list PhotoRecord) (w : world),
      exists t v s w',
        convert_app_data' (Manifest photos) w = (ReturnTrue t v s, w')
        /\ (t + v + s = length photos)%nat)
  /\ (forall (i : nat) (photo_data : PhotoRecord) (c : counters) (w : world),
         let c' := fst (loop_body' i photo_data (c, w)) in
         (train_count c' = S (train_count c) /\ val_count c' = val_count c
          /\ skipped_count c' = skipped_count c)
         \/ (train_count c' = train_count c /\ val_count c' = S (val_count c)
             /\ skipped_count c' = skipped_count c)
         \/ (train_count c' = train_count c /\ val_count c' = val_count c
             /\ skipped_count c' = S (skipped_count c))).
Proof.
  split.
  - intros photos w. rewrite convert_manifest. cbn zeta.
    destruct (loop_counters photos 0 (Counters 0 0 0)
                (create_dataset_yaml output_path output_path_absolute w)) as [Hsum _].
    do 4 eexists. split; [ reflexivity | ]. cbn in Hsum. lia.
  - intros i photo_data c w.
    pose proof (loop_body_counters i photo_data c w) as H. cbn zeta in H |- *.
    destruct (usable' photo_data), (is_val i); tauto.
Qed.

End Loop.

Lemma assigned_imap (split : string) (photos : list PhotoRecord) (i : nat) :
  assigned split (imap (fun k photo_data => (photo_data, split_of (i + k))) photos)
  = length (List.filter (fun k => String.eqb (split_of k) split) (seq i (length photos))).
Proof.
  unfold assigned. revert i. induction photos as [| p rest IH]; intros i; [ reflexivity | ].
  cbn [imap List.filter length seq snd]. rewrite Nat.add_0_r.
  assert (Hrest : imap ((fun k photo_data => (photo_data, split_of (i + k))) ∘ S) rest
                  = imap (fun k photo_data => (photo_data, split_of (S i + k))) rest).
  { apply imap_ext. intros k q _. cbn. do 2 f_equal. lia. }
  rewrite Hrest.
  destruct (String.eqb (split_of i) split); cbn [length]; rewrite IH; reflexivity.
Qed.

Lemma filter_complement {A : Type} (f : A -> bool) (l : list A) :
  (length (List.filter (fun a => negb (f a)) l) = length l - length (List.filter f l))%nat
  /\ (length (List.filter f l) <= length l)%nat.
Proof.
  induction l as [| a l [IH1 IH2]]; [ cbn; lia | ].
  cbn [List.filter]. destruct (f a); cbn [negb length]; lia.
Qed.

(** C4: the photo at index [i] is handed to [process_photo] with the split
    [val] when [i mod 5 = 0] and [train] otherwise; of [n] photos exactly
    [ceil(n/5)] are assigned to [val] and [n - ceil(n/5)] to [train]; and
    the assignment depends on the manifest alone: two runs on the same
    manifest, whatever the files, the images and the output directory, make
    the same calls with the same splits. *)
Theorem split_is_a_function_of_the_index
    (interpolate : image -> Z * Z -> Z -> Z -> Z -> byte)
    (gaussian : image -> Z * Z -> image)
    (path_exists : string -> bool) (imread : string -> option image)
    (output_path output_path_absolute : string)
    (photos : list PhotoRecord) (fs : gmap string file) :
  let run := convert_app_data interpolate gaussian path_exists imread output_path
               output_path_absolute (Manifest photos) (World fs []) in
  calls (snd run)
  = imap (fun i photo_data =>
            (photo_data, if (i mod 5 =? 0)%nat then "val" else "train")) photos
  /\ assigned "val" (calls (snd run)) = ceil_fifth (length photos)
  /\ assigned "train" (calls (snd run)) = (length photos - ceil_fifth (length photos))%nat
  /\ forall interpolate2 gaussian2 path_exists2 imread2 output_path2
            output_path_absolute2 fs2,
       calls (snd (convert_app_data interpolate2 gaussian2 path_exists2 imread2
                     output_path2 output_path_absolute2 (Manifest photos) (World fs2 [])))
       = calls (snd run).
Proof.
  cbn zeta. rewrite convert_calls.
  split; [ reflexivity | ].
  pose proof (assigned_imap "val" photos 0) as Hval.
  pose proof (assigned_imap "train" photos 0) as Htrain.
  cbn [Nat.add] in Hval, Htrain.
  assert (Hv : forall k, String.eqb (split_of k) "val" = is_val k)
    by (intros k; unfold split_of; destruct (is_val k); reflexivity).
  assert (Ht : forall k, String.eqb (split_of k) "train" = negb (is_val k))
    by (intros k; unfold split_of; destruct (is_val k); reflexivity).
  rewrite (List.filter_ext _ _ Hv) in Hval. rewrite (List.filter_ext _ _ Ht) in Htrain.
  destruct (filter_complement is_val (seq 0 (length photos))) as [Hc _].
  rewrite is_val_count, length_seq in Hc. rewrite is_val_count in Hval.
  split; [ exact Hval | ]. split; [ rewrite Htrain; exact Hc | ].
  intros. rewrite convert_calls. reflexivity.
Qed.

(** The sample run: the first record is written to [val], the second has
    no source image, the third cannot be resized. *)
Example sample_run :
  fst (convert_app_data Letterbox.sample_interpolate Letterbox.sample_gaussian
         sample_exists sample_imread "/out" "/abs/out" (Manifest sample_photos)
         empty_world)
  = ReturnTrue 0 1 2.
Proof. vm_compute. reflexivity. Qed.


End RunFacts.

(** ** Further properties: score evaluator *)

Module ScoreMore.
Import Score ScoreFacts ScoreSamples.

(** Case analysis on the presence of the eight classes the score reads. *)
Ltac by_presence counts :=
  unfold calculate_package_detection_score; cbn zeta; rewrite !gtb_ltb;
  repeat match goal with
         | |- context [0 <? get counts ?k 0] =>
             generalize (0 <? get counts k 0); intros []
         end;
  cbn [andb orb negb];
  (split; intros Hyp; first [ reflexivity | discriminate Hyp ]).

Lemma score_zero_bool (counts : gmap string Z) :
  calculate_package_detection_score counts = 0.0%Q
  <-> (0 <? get counts "no_objects" 0)
      || (negb (0 <? get counts "pakke" 0) && negb (0 <? get counts "postkasse" 0)
          && negb (0 <? get counts "etikett" 0)
          && negb (0 <? get counts "postkasseskilt" 0)
          && negb (0 <? get counts "pakke_ved_inngangsparti" 0)
          && negb (0 <? get counts "inngangsparti" 0)) = true.
Proof. by_presence counts. Qed.

Lemma score_one_bool (counts : gmap string Z) :
  calculate_package_detection_score counts = 1.0%Q
  <-> negb (0 <? get counts "no_objects" 0)
      && ((0 <? get counts "pakke_ved_inngangsparti" 0)
          || ((0 <? get counts "pakke" 0) && (0 <? get counts "inngangsparti" 0))
          || ((0 <? get counts "etikett" 0) && (0 <? get counts "postkasseskilt" 0)
              && ((0 <? get counts "pakke_i_postkasse" 0)
                  || ((0 <? get counts "pakke" 0) && (0 <? get counts "postkasse" 0)))))
      = true.
Proof. by_presence counts. Qed.

(** From the boolean form to inequalities. *)
Ltac to_inequalities :=
  repeat first [ rewrite orb_true_iff | rewrite andb_true_iff
               | rewrite negb_true_iff | rewrite Z.ltb_lt | rewrite Z.ltb_ge ].

(** X1: the score is [0.0] exactly when [no_objects] is present or none of
    [pakke], [postkasse], [etikett], [postkasseskilt],
    [pakke_ved_inngangsparti] and [inngangsparti] is; in particular
    [pakke_i_postkasse] alone scores nothing. *)
Theorem score_zero_iff (counts : gmap string Z) :
  calculate_package_detection_score counts = 0.0%Q
  <-> (0 < get counts "no_objects" 0
       \/ (get counts "pakke" 0 <= 0 /\ get counts "postkasse" 0 <= 0
           /\ get counts "etikett" 0 <= 0 /\ get counts "postkasseskilt" 0 <= 0
           /\ get counts "pakke_ved_inngangsparti" 0 <= 0
           /\ get counts "inngangsparti" 0 <= 0)).
Proof. rewrite score_zero_bool. to_inequalities. tauto. Qed.

(** X2: the score is [1.0] exactly when [no_objects] is absent and the
    image shows a package at the entrance ([pakke_ved_inngangsparti], or
    [pakke] with [inngangsparti]) or a labelled mailbox ([etikett] and
    [postkasseskilt]) holding a package ([pakke_i_postkasse], or [pakke]
    with [postkasse]). *)
Theorem score_one_iff (counts : gmap string Z) :
  calculate_package_detection_score counts = 1.0%Q
  <-> (get counts "no_objects" 0 <= 0
       /\ (0 < get counts "pakke_ved_inngangsparti" 0
           \/ (0 < get counts "pakke" 0 /\ 0 < get counts "inngangsparti" 0)
           \/ (0 < get counts "etikett" 0 /\ 0 < get counts "postkasseskilt" 0
               /\ (0 < get counts "pakke_i_postkasse" 0
                   \/ (0 < get counts "pakke" 0 /\ 0 < get counts "postkasse" 0))))).
Proof. rewrite score_one_bool. to_inequalities. tauto. Qed.

Lemma matches_ext (m m' : gmap string Z) (r : rule) :
  (forall k, In k (present r) -> (0 <? get m k 0) = (0 <? get m' k 0)) ->
  matches m r = matches m' r.
Proof.
  unfold matches. induction (present r) as [| k ks IH]; intros H; [ reflexivity | ].
  cbn [forallb]. rewrite (H k) by (left; reflexivity).
  rewrite IH; [ reflexivity | ]. intros k' Hk'. apply H. right. exact Hk'.
Qed.

Lemma spec_rules_read_the_table :
  Forall (fun r => forall k, In k (present r) -> In k target_classes) spec_rules.
Proof.
  assert (H : forallb (fun r => forallb (fun k => existsb (String.eqb k) target_classes)
                                   (present r)) spec_rules = true)
    by (vm_compute; reflexivity).
  apply List.Forall_forall. intros r Hr k Hk.
  pose proof (proj1 (forallb_forall _ _) H r Hr) as Hks.
  pose proof (proj1 (forallb_forall _ _) Hks k Hk) as Hex.
  apply existsb_exists in Hex as (c & Hc & Heq).
  apply String.eqb_eq in Heq. subst c. exact Hc.
Qed.

(** X3: the score depends only on which of the eight classes of the table
    have a positive count: magnitudes, counts that are zero or negative
    and keys outside the table do not matter. *)
Theorem score_depends_on_presence_only (m m' : gmap string Z) :
  (forall k, In k target_classes -> (0 <? get m k 0) = (0 <? get m' k 0)) ->
  calculate_package_detection_score m = calculate_package_detection_score m'.
Proof.
  intros H. rewrite !score_refines_rules. unfold spec_score.
  pose proof spec_rules_read_the_table as Hrules.
  induction Hrules as [| r rest Hr _ IH]; [ reflexivity | ].
  cbn [first_match]. rewrite (matches_ext m m' r), IH; [ reflexivity | ].
  intros k Hk. apply H, Hr, Hk.
Qed.

Lemma score_depends_on_presence_only_witness :
  (forall k, In k target_classes
             -> (0 <? get one_pakke k 0) = (0 <? get same_presence k 0))
  /\ calculate_package_detection_score one_pakke
     = calculate_package_detection_score same_presence.
Proof.
  assert (H : forall k, In k target_classes
                        -> (0 <? get one_pakke k 0) = (0 <? get same_presence k 0)).
  { intros k Hk. cbn in Hk.
    repeat (destruct Hk as [<- | Hk]; [ vm_compute; reflexivity | ]). destruct Hk. }
  split; [ exact H | ].
  exact (score_depends_on_presence_only one_pakke same_presence H).
Defined.

Lemma matches_mono (m m' : gmap string Z) (r : rule) :
  (forall k, In k (present r) -> 0 < get m k 0 -> 0 < get m' k 0) ->
  matches m r = true -> matches m' r = true.
Proof.
  unfold matches. induction (present r) as [| k ks IH]; intros H; [ reflexivity | ].
  cbn [forallb]. intros Hm. apply andb_true_iff in Hm as [Hk Hks].
  apply andb_true_iff. split.
  - apply Z.ltb_lt, H; [ left; reflexivity | apply Z.ltb_lt, Hk ].
  - apply IH; [ | exact Hks ]. intros k' Hk'. apply H. right. exact Hk'.
Qed.

Lemma first_match_le (m : gmap string Z) (rules : list rule) (bound : Q) :
  (0.0 <= bound)%Q -> Forall (fun r => (value r <= bound)%Q) rules ->
  (first_match m rules <= bound)%Q.
Proof.
  intros H0. induction 1 as [| r rest Hr _ IH]; cbn [first_match]; [ exact H0 | ].
  destruct (matches m r); [ exact Hr | exact IH ].
Qed.

(** A decision list whose values do not increase and whose predicates are
    monotone is monotone. *)
Lemma first_match_mono (m m' : gmap string Z) (rules : list rule) :
  (forall k, In k target_classes -> 0 < get m k 0 -> 0 < get m' k 0) ->
  Forall (fun r => forall k, In k (present r) -> In k target_classes) rules ->
  ForallOrdPairs (fun r r' => (value r' <= value r)%Q) rules ->
  Forall (fun r => (0.0 <= value r)%Q) rules ->
  (first_match m rules <= first_match m' rules)%Q.
Proof.
  intros Hm Hin Hord Hpos. induction Hord as [| r rest Hr Hrest IH].
  - cbn. apply Qle_refl.
  - apply Forall_cons_iff in Hin as [Hinr Hin]. apply Forall_cons_iff in Hpos as [Hposr Hpos].
    cbn [first_match].
    destruct (matches m r) eqn:Hmr.
    + rewrite (matches_mono m m' r); [ apply Qle_refl | | exact Hmr ].
      intros k Hk. apply Hm, Hinr, Hk.
    + destruct (matches m' r).
      * apply first_match_le; [ exact Hposr | ].
        apply List.Forall_forall. intros r' Hr'.
        exact (proj1 (List.Forall_forall _ _) Hr r' Hr').
      * apply IH; assumption.
Qed.

Lemma first_match_no_objects (m : gmap string Z) :
  first_match m spec_rules
  = if 0 <? get m "no_objects" 0 then 0.0%Q else first_match m (List.tl spec_rules).
Proof.
  change spec_rules with (Rule ["no_objects"] 0.0 :: List.tl spec_rules).
  cbn [first_match]. unfold matches at 1. cbn [present forallb value].
  rewrite andb_true_r. reflexivity.
Qed.

Lemma later_rules_do_not_increase :
  ForallOrdPairs (fun r r' => (value r' <= value r)%Q) (List.tl spec_rules)
  /\ Forall (fun r => (0.0 <= value r)%Q) (List.tl spec_rules).
Proof. split; repeat constructor; discriminate. Qed.

Lemma first_match_nonneg (m : gmap string Z) (rules : list rule) :
  Forall (fun r => (0.0 <= value r)%Q) rules -> (0.0 <= first_match m rules)%Q.
Proof.
  induction 1 as [| r rest Hr _ IH]; cbn [first_match]; [ discriminate | ].
  destruct (matches m r); [ exact Hr | exact IH ].
Qed.

(** X4: without [no_objects] the score is monotone: if every class present
    in [m] is present in [m'], and [no_objects] is absent from [m'], then
    the score of [m'] is at least the score of [m]. *)
Theorem score_monotone (m m' : gmap string Z) :
  get m' "no_objects" 0 <= 0 ->
  (forall k, In k target_classes -> 0 < get m k 0 -> 0 < get m' k 0) ->
  (calculate_package_detection_score m <= calculate_package_detection_score m')%Q.
Proof.
  intros Hno Hm. rewrite !score_refines_rules. unfold spec_score.
  rewrite !first_match_no_objects.
  destruct later_rules_do_not_increase as (Hord & Hpos).
  destruct (Z.ltb_spec 0 (get m' "no_objects" 0)) as [Hlt | _]; [ lia | ].
  assert (Htail : (first_match m (List.tl spec_rules)
                   <= first_match m' (List.tl spec_rules))%Q).
  { apply first_match_mono; [ exact Hm | | exact Hord | exact Hpos ].
    pose proof spec_rules_read_the_table as H.
    change spec_rules with (Rule ["no_objects"] 0.0 :: List.tl spec_rules) in H.
    apply Forall_cons_iff in H as [_ H]. exact H. }
  destruct (0 <? get m "no_objects" 0); [ | exact Htail ].
  apply first_match_nonneg, Hpos.
Qed.

Lemma score_monotone_witness :
  get pakke_at_postkasse "no_objects" 0 <= 0
  /\ (forall k, In k target_classes
                -> 0 < get one_pakke k 0 -> 0 < get pakke_at_postkasse k 0)
  /\ (calculate_package_detection_score one_pakke
      <= calculate_package_detection_score pakke_at_postkasse)%Q.
Proof.
  assert (H0 : get pakke_at_postkasse "no_objects" 0 <= 0) by (vm_compute; discriminate).
  assert (H : forall k, In k target_classes
                        -> 0 < get one_pakke k 0 -> 0 < get pakke_at_postkasse k 0).
  { intros k Hk. cbn in Hk.
    repeat (destruct Hk as [<- | Hk]; [ vm_compute; congruence | ]). destruct Hk. }
  split; [ exact H0 | ]. split; [ exact H | ].
  exact (score_monotone one_pakke pakke_at_postkasse H0 H).
Defined.

End ScoreMore.

(** ** Further properties: letterbox transform *)

Module LetterboxMore.
Import Cv Letterbox LetterboxFacts Channel.

Lemma broadcast_needs_fit (n : Z) :
  1 <= n ->
  broadcasts n (snd (slice 640 ((640 - n) / 2) ((640 - n) / 2 + n))) = true ->
  n <= 640.
Proof.
  intros Hn Hb. destruct (Z.le_gt_cases n 640) as [Hle | Hgt]; [ exact Hle | exfalso ].
  unfold broadcasts, slice, slice_bound in Hb. cbn [snd] in Hb.
  assert (Hneg : (640 - n) / 2 < 0) by (apply Z.div_lt_upper_bound; lia).
  assert (Hlow : 640 - n <= (640 - n) / 2).
  { pose proof (Z.div_mod (640 - n) 2 ltac:(lia)).
    pose proof (Z.mod_pos_bound (640 - n) 2 ltac:(lia)). lia. }
  destruct (Z.ltb_spec ((640 - n) / 2) 0); [ | lia ].
  destruct (Z.ltb_spec ((640 - n) / 2 + n) 0); [ lia | ].
  apply orb_true_iff in Hb as [Hb | Hb]; apply Z.eqb_eq in Hb; lia.
Qed.

(** What a returned canvas tells about the computed size. *)
Lemma optimize_returns_inv
    (interpolate : image -> Z * Z -> Z -> Z -> Z -> byte)
    (gaussian : image -> Z * Z -> image) (img out : image) :
  optimize_image_for_yolo interpolate gaussian img = Some out ->
  exists new_w new_h,
    new_size 640 (cols img) (rows img) = Some (new_w, new_h)
    /\ 1 <= rows img /\ 1 <= cols img
    /\ 1 <= new_w <= 640 /\ 1 <= new_h <= 640
    /\ out = enhance_for_iphone_photos gaussian (canvas interpolate img new_w new_h).
Proof.
  intros Ho. pose proof Ho as Ho'. unfold optimize_image_for_yolo in Ho'.
  destruct (new_size 640 (cols img) (rows img)) as [[new_w new_h] |] eqn:Hs;
    [ | discriminate ].
  cbn [mbind option_bind] in Ho'. unfold resize in Ho'.
  destruct (Z.ltb_spec 0 new_w); [ | discriminate ].
  destruct (Z.ltb_spec 0 new_h); [ | discriminate ].
  destruct (Z.ltb_spec 0 (rows img)); [ | discriminate ].
  destruct (Z.ltb_spec 0 (cols img)); [ | discriminate ].
  cbn [andb mbind option_bind] in Ho'. unfold np_set_slice in Ho'.
  cbn [rows cols np_full] in Ho'.
  destruct (slice 640 ((640 - new_h) / 2) ((640 - new_h) / 2 + new_h))
    as [rs rl] eqn:Hrs.
  destruct (slice 640 ((640 - new_w) / 2) ((640 - new_w) / 2 + new_w))
    as [cs cl] eqn:Hcs.
  destruct (broadcasts new_h rl) eqn:Hbh; [ | discriminate ].
  destruct (broadcasts new_w cl) eqn:Hbw; [ | discriminate ].
  assert (Hh : new_h <= 640)
    by (apply broadcast_needs_fit; [ lia | rewrite Hrs; exact Hbh ]).
  assert (Hw : new_w <= 640)
    by (apply broadcast_needs_fit; [ lia | rewrite Hcs; exact Hbw ]).
  exists new_w, new_h. repeat (split; [ first [ reflexivity | lia ] | ]).
  rewrite (optimize_when_it_fits interpolate gaussian img new_w new_h) in Ho
    by (first [ exact Hs | lia ]).
  injection Ho as <-. reflexivity.
Qed.

(** X5: the transform returns exactly when the image is not empty and the
    size it computes lies in [1..640] in both dimensions, and what it
    returns is then the corrected canvas; in every other case (an empty
    image, a division that raises, a size of 0) it raises. *)
Theorem transform_returns_iff_size_fits
    (interpolate : image -> Z * Z -> Z -> Z -> Z -> byte)
    (gaussian : image -> Z * Z -> image) (img out : image) :
  optimize_image_for_yolo interpolate gaussian img = Some out
  <-> exists new_w new_h,
        new_size 640 (cols img) (rows img) = Some (new_w, new_h)
        /\ 1 <= rows img /\ 1 <= cols img
        /\ 1 <= new_w <= 640 /\ 1 <= new_h <= 640
        /\ out = enhance_for_iphone_photos gaussian (canvas interpolate img new_w new_h).
Proof.
  split.
  - apply optimize_returns_inv.
  - intros (new_w & new_h & Hs & Hr & Hc & Hw & Hh & ->).
    apply optimize_when_it_fits; assumption.
Qed.

Lemma correction_range (v : byte) :
  (5 <=? value (correction v)) && (value (correction v) <=? 247) = true.
Proof. destruct v; vm_compute; reflexivity. Qed.

(** X6: whatever the transform returns holds no channel value below 5 or
    above 247, and outside the rectangle of the resized image every channel
    holds 113: the fill value 114 after the correction. *)
Theorem output_range_and_padding
    (interpolate : image -> Z * Z -> Z -> Z -> Z -> byte)
    (gaussian : image -> Z * Z -> image) (img out : image) :
  optimize_image_for_yolo interpolate gaussian img = Some out ->
  (forall r c ch, 5 <= value (px out r c ch) <= 247)
  /\ exists new_w new_h,
       new_size 640 (cols img) (rows img) = Some (new_w, new_h)
       /\ forall r c ch, in_paste new_w new_h r c = false -> value (px out r c ch) = 113.
Proof.
  intros Ho. split.
  - intros r c ch.
    destruct (optimize_is_enhanced _ _ _ _ Ho) as (padded & _ & _ & ->).
    rewrite enhance_px. pose proof (correction_range (px padded r c ch)) as H.
    apply andb_true_iff in H as [H1 H2]. apply Z.leb_le in H1, H2. lia.
  - apply optimize_returns_inv in Ho as (new_w & new_h & Hs & _ & _ & _ & _ & ->).
    exists new_w, new_h. split; [ exact Hs | ].
    intros r c ch Hout. rewrite enhance_px, canvas_px, Hout. reflexivity.
Qed.

Lemma output_range_and_padding_witness :
  exists out,
    optimize_image_for_yolo sample_interpolate sample_gaussian white_5x9 = Some out
    /\ value (px out 0 0 0) = 113
    /\ 5 <= value (px out 0 142 0) <= 247.
Proof.
  destruct (optimize_image_for_yolo sample_interpolate sample_gaussian white_5x9)
    as [out |] eqn:Ho; [ | vm_compute in Ho; discriminate Ho ].
  exists out. split; [ reflexivity | ].
  destruct (output_range_and_padding _ _ _ _ Ho) as (Hrange & nw & nh & Hs & Hpad).
  split; [ | apply Hrange ].
  apply Hpad.
  assert (Hs' : new_size 640 (cols white_5x9) (rows white_5x9) = Some (355, 640))
    by (vm_compute; reflexivity).
  rewrite Hs' in Hs. injection Hs as <- <-. reflexivity.
Defined.

Lemma saturate_cast_value (v : byte) : saturate_cast (value v) = v.
Proof.
  apply value_inj. rewrite value_saturate_cast. unfold clamp.
  pose proof (value_range v). lia.
Qed.

Lemma corrected_step (z : Z) :
  0 <= z < 255 -> corrected z <= corrected (z + 1) <= corrected z + 1.
Proof.
  intros Hz.
  assert (Hall : steps_by_at_most_one = true) by (vm_compute; reflexivity).
  unfold steps_by_at_most_one in Hall.
  assert (Hin : In (Z.to_nat z) (seq 0 255)) by (apply in_seq; lia).
  pose proof (proj1 (forallb_forall _ _) Hall (Z.to_nat z) Hin) as H.
  cbv beta zeta in H. rewrite Z2Nat.id in H by lia.
  apply andb_true_iff in H as [H1 H2].
  apply Z.leb_le in H1, H2. lia.
Qed.

Lemma corrected_steps (n : nat) (z : Z) :
  0 <= z -> z + Z.of_nat n <= 255 ->
  corrected z <= corrected (z + Z.of_nat n) <= corrected z + Z.of_nat n.
Proof.
  induction n as [| n IH]; intros Hz Hn.
  - rewrite Z.add_0_r. lia.
  - specialize (IH Hz ltac:(lia)).
    pose proof (corrected_step (z + Z.of_nat n) ltac:(lia)) as Hs.
    replace (z + Z.of_nat (S n)) with (z + Z.of_nat n + 1) by lia. lia.
Qed.

(** X7: the correction keeps the order of channel values and never widens
    a difference: for [a <= b] the corrected values satisfy
    [0 <= b' - a' <= b - a]. *)
Theorem correction_is_monotone_and_contracting (a b : byte) :
  value a <= value b ->
  value (correction a) <= value (correction b)
  /\ value (correction b) - value (correction a) <= value b - value a.
Proof.
  intros Hab. pose proof (value_range a) as Ha. pose proof (value_range b) as Hb.
  pose proof (corrected_steps (Z.to_nat (value b - value a)) (value a)
                ltac:(lia) ltac:(lia)) as H.
  rewrite Z2Nat.id in H by lia.
  replace (value a + (value b - value a)) with (value b) in H by lia.
  unfold corrected in H. rewrite !saturate_cast_value in H. lia.
Qed.

Lemma correction_is_monotone_and_contracting_witness :
  value x0a <= value xff
  /\ value (correction x0a) <= value (correction xff)
  /\ value (correction xff) - value (correction x0a) <= value xff - value x0a.
Proof.
  assert (H : value x0a <= value xff) by (vm_compute; discriminate).
  split; [ exact H | ].
  exact (correction_is_monotone_and_contracting x0a xff H).
Defined.

End LetterboxMore.

(** ** Further properties: label encoder and descriptor *)

Module EncoderMore.
Import Py Cv Converter Encoder Descriptor PyFacts EncoderFacts.

(** X8: the class table has no duplicate, so that class ids and class names
    determine each other: [index] gives [k] for a name exactly when the
    table holds that name at position [k]. *)
Theorem class_id_round_trip (name : string) (k : nat) :
  index name target_classes = Some k <-> target_classes !! k = Some name.
Proof.
  split; [ intros H; apply (index_Some _ _ _ H) | ].
  intros H.
  do 8 (destruct k as [| k]; [ injection H as <-; reflexivity | ]).
  discriminate H.
Qed.

Lemma string_app_assoc (a b c : string) : (a ++ b) ++ c = a ++ (b ++ c).
Proof.
  induction a as [| ch a IH]; [ reflexivity | ].
  rewrite !append_cons, IH. reflexivity.
Qed.

Lemma concat_cons_cons (sep x y : string) (l : list string) :
  String.concat sep (x :: y :: l) = x ++ sep ++ String.concat sep (y :: l).
Proof. reflexivity. Qed.

(** An element of a joined list that is neither first nor last is a whole
    separated piece of the result. *)
Lemma concat_middle (sep x : string) (l1 l2 : list string) :
  l1 <> [] -> l2 <> [] ->
  exists b after,
    String.concat sep (l1 ++ x :: l2)%list = (b ++ sep) ++ x ++ sep ++ after.
Proof.
  intros H1 H2. destruct l2 as [| y l2]; [ congruence | clear H2 ].
  induction l1 as [| a l1 IH]; [ congruence | clear H1 ].
  destruct l1 as [| a' l1].
  - exists a, (String.concat sep (y :: l2)).
    cbn [app]. rewrite !concat_cons_cons, string_app_assoc. reflexivity.
  - destruct (IH ltac:(discriminate)) as (b & after & Heq).
    exists (a ++ sep ++ b), after.
    change ((a :: a' :: l1) ++ x :: y :: l2)%list
      with (a :: a' :: (l1 ++ x :: y :: l2))%list.
    rewrite concat_cons_cons.
    change (a' :: (l1 ++ x :: y :: l2))%list with ((a' :: l1) ++ x :: y :: l2)%list.
    rewrite Heq, !string_app_assoc. reflexivity.
Qed.

(** X9: the descriptor agrees with the label encoder: for every class name
    of the table, with the id [k] that the encoder writes for it,
    [dataset.yaml] holds the line [  k: 'name'], and it holds the line
    [nc: 8]. *)
Theorem descriptor_names_the_class_ids (output_path_absolute name : string) (k : nat) :
  index name target_classes = Some k ->
  has_line (dataset_yaml output_path_absolute) (names_line k name)
  /\ has_line (dataset_yaml output_path_absolute) "nc: 8".
Proof.
  intros Hi. apply index_Some in Hi as [Hk _]. unfold has_line, dataset_yaml.
  set (names := imap (fun i n => "  " ++ str_nat i ++ ": '" ++ n ++ "'") target_classes).
  assert (Hl : names !! k = Some (names_line k name)).
  { unfold names. rewrite list_lookup_imap, Hk. reflexivity. }
  split.
  - apply take_drop_middle in Hl.
    match goal with
    | |- context [String.concat _ (?hd ++ names ++ ?ft)%list] =>
        destruct (concat_middle newline (names_line k name)
                    (hd ++ take k names) (drop (S k) names ++ ft)
                    ltac:(discriminate)
                    ltac:(intros H; apply app_eq_nil in H as [_ H]; discriminate H))
          as (b & after & Heq);
        replace (hd ++ names ++ ft)%list
          with ((hd ++ take k names) ++ names_line k name :: (drop (S k) names ++ ft))%list
          by (rewrite <- Hl at 3; rewrite <- !app_assoc; reflexivity)
    end.
    exists (b ++ newline), after. split; [ exact Heq | right; eauto ].
  - match goal with
    | |- context [String.concat _ (?hd ++ names ++ ?ft)%list] =>
        destruct (concat_middle newline "nc: 8" (take 8 hd) (drop 9 hd ++ names ++ ft)
                    ltac:(discriminate) ltac:(discriminate))
          as (b & after & Heq)
    end.
    exists (b ++ newline), after. split; [ exact Heq | right; eauto ].
Qed.

Lemma descriptor_names_the_class_ids_witness :
  index "postkasse" target_classes = Some 2%nat
  /\ has_line (dataset_yaml "/abs/out") (names_line 2 "postkasse").
Proof.
  assert (H : index "postkasse" target_classes = Some 2%nat) by reflexivity.
  split; [ exact H | ].
  exact (proj1 (descriptor_names_the_class_ids "/abs/out" "postkasse" 2 H)).
Defined.

Lemma box_line_zero_frame (bbox : BoundingBox) (h w : Z) :
  h = 0 \/ w = 0 -> box_line bbox h w = None.
Proof.
  intros Hz. unfold box_line.
  destruct (index (bbox_label bbox) target_classes) as [class_id |]; [ | reflexivity ].
  cbn [mbind option_bind].
  destruct (float_div_int (width bbox) 2) as [half_width |]; [ | reflexivity ].
  cbn [mbind option_bind].
  destruct (float_div_int (float_add (x bbox) half_width) w) as [x_center |] eqn:Hx;
    [ | reflexivity ].
  cbn [mbind option_bind].
  destruct Hz as [-> | ->]; [ | discriminate Hx ].
  destruct (float_div_int (height bbox) 2) as [half_height |]; reflexivity.
Qed.

(** X10: in a frame of height or width 0 the box loop raises (a division
    by zero) at the first box whose label is known, before it writes
    anything: the label file of a record with boxes is left empty, and the
    call returns normally only when no box is known. *)
Theorem zero_frame_raises_at_first_known_box (photo_data : PhotoRecord) (h w c : Z) :
  h = 0 \/ w = 0 ->
  boundingBoxes photo_data <> [] ->
  create_yolo_label photo_data (h, w, c)
  = ([], if existsb known (boundingBoxes photo_data) then Raised else Returned).
Proof.
  intros Hz Hne. unfold create_yolo_label.
  destruct (boundingBoxes photo_data) as [| bbox rest] eqn:Hb; [ congruence | ].
  clear Hb Hne. generalize (bbox :: rest). intros boxes.
  induction boxes as [| b boxes IH]; [ reflexivity | ].
  cbn [write_boxes existsb]. unfold known at 1.
  destruct (contains target_classes (bbox_label b)); cbn [orb].
  - rewrite (box_line_zero_frame b h w Hz). reflexivity.
  - exact IH.
Qed.

Lemma zero_frame_raises_at_first_known_box_witness :
  (0 = 0 \/ 640 = 0)
  /\ boundingBoxes two_box_photo <> []
  /\ create_yolo_label two_box_photo (0, 640, 3) = ([], Raised).
Proof.
  assert (Hz : 0 = 0 \/ 640 = 0) by (left; reflexivity).
  assert (Hne : boundingBoxes two_box_photo <> []) by discriminate.
  split; [ exact Hz | ]. split; [ exact Hne | ].
  exact (zero_frame_raises_at_first_known_box two_box_photo 0 640 3 Hz Hne).
Defined.

End EncoderMore.

(** ** Further properties: the output tree and the counters *)

Module TreeFacts.
Import Cv Converter Encoder Run Tree PyFacts EncoderFacts LetterboxFacts RunFacts.

Lemma apply_writes_lookup (writes : list (string * file)) (tree : gmap string file)
    (path : string) :
  apply_writes writes tree !! path
  = match last_write path writes with
    | Some f => Some f
    | None => tree !! path
    end.
Proof.
  unfold apply_writes. revert tree.
  induction writes as [| [q f] rest IH]; intros tree; [ reflexivity | ].
  cbn [fold_left last_write fst snd]. rewrite IH.
  destruct (last_write path rest); [ reflexivity | ].
  destruct (String.eqb_spec q path) as [-> | Hne].
  - apply lookup_insert_eq.
  - apply lookup_insert_ne. exact Hne.
Qed.

Lemma apply_writes_app (w1 w2 : list (string * file)) (tree : gmap string file) :
  apply_writes (w1 ++ w2) tree = apply_writes w2 (apply_writes w1 tree).
Proof. unfold apply_writes. apply fold_left_app. Qed.

Lemma last_write_In (path : string) (writes : list (string * file)) (f : file) :
  last_write path writes = Some f -> In (path, f) writes.
Proof.
  induction writes as [| [q g] rest IH]; cbn [last_write fst snd]; [ discriminate | ].
  destruct (last_write path rest) as [f' |].
  - intros [= <-]. right. apply IH. reflexivity.
  - destruct (String.eqb_spec q path) as [-> | _]; [ | discriminate ].
    intros [= <-]. left. reflexivity.
Qed.

Lemma In_last_write (path : string) (writes : list (string * file)) (f : file) :
  In (path, f) writes -> exists g, last_write path writes = Some g.
Proof.
  induction writes as [| [q g] rest IH]; [ intros [] | ].
  cbn [last_write fst snd]. intros [Heq | Hin].
  - injection Heq as -> ->. rewrite String.eqb_refl.
    destruct (last_write path rest); eauto.
  - destruct (IH Hin) as [g' ->]. eauto.
Qed.

Lemma string_app_inv_head (a b c : string) : a ++ b = a ++ c -> b = c.
Proof.
  induction a as [| ch a IH]; [ intros H; exact H | ].
  rewrite !append_cons. intros [= H]. exact (IH H).
Qed.

(** The three kinds of paths of the layout never coincide. *)
Lemma image_path_not_label_path (out s1 i1 s2 i2 : string) :
  image_path out s1 i1 <> label_path out s2 i2.
Proof.
  unfold image_path, label_path. intros H. apply string_app_inv_head in H.
  rewrite !append_cons in H. discriminate H.
Qed.

Lemma image_path_not_yaml_path (out s1 i1 : string) :
  image_path out s1 i1 <> yaml_path out.
Proof.
  unfold image_path, yaml_path. intros H. apply string_app_inv_head in H.
  rewrite !append_cons in H. discriminate H.
Qed.

Lemma label_path_not_yaml_path (out s1 i1 : string) :
  label_path out s1 i1 <> yaml_path out.
Proof.
  unfold label_path, yaml_path. intros H. apply string_app_inv_head in H.
  rewrite !append_cons in H. discriminate H.
Qed.

Section Tree.

Variable interpolate : image -> Z * Z -> Z -> Z -> Z -> byte.
Variable gaussian : image -> Z * Z -> image.
Variable path_exists : string -> bool.
Variable imread : string -> option image.
Variable output_path : string.
Variable output_path_absolute : string.

#[local] Abbreviation process_photo' :=
  (process_photo interpolate gaussian path_exists imread output_path).
#[local] Abbreviation loop_body' :=
  (loop_body interpolate gaussian path_exists imread output_path).
#[local] Abbreviation loop' :=
  (loop interpolate gaussian path_exists imread output_path).
#[local] Abbreviation usable' := (usable interpolate gaussian path_exists imread).
#[local] Abbreviation convert_app_data' :=
  (convert_app_data interpolate gaussian path_exists imread output_path
     output_path_absolute).
#[local] Abbreviation record_writes' :=
  (record_writes interpolate gaussian path_exists imread output_path).
#[local] Abbreviation records_writes' :=
  (records_writes interpolate gaussian path_exists imread output_path).
#[local] Abbreviation run_writes' :=
  (run_writes interpolate gaussian path_exists imread output_path output_path_absolute).
#[local] Abbreviation written' := (written interpolate gaussian path_exists imread).

Lemma process_photo_files (i : nat) (photo_data : PhotoRecord) (w : world) :
  files (snd (process_photo' photo_data (split_of i) w))
  = apply_writes (record_writes' i photo_data) (files w).
Proof.
  unfold process_photo, record_writes.
  destruct (path_exists (imagePath photo_data)); cbn [negb]; [ | reflexivity ].
  destruct (imread (imagePath photo_data)) as [img |]; [ | reflexivity ].
  destruct (optimize_image_for_yolo interpolate gaussian img) as [out |] eqn:Ho;
    [ | reflexivity ].
  destruct (optimize_is_enhanced _ _ _ _ Ho) as (padded & Hr & Hc & ->).
  destruct (enhance_shape gaussian padded) as [-> ->]. rewrite Hr, Hc.
  unfold label_file.
  destruct (create_yolo_label photo_data (640, 640, 3)) as [lines o].
  destruct o; reflexivity.
Qed.

Lemma loop_body_files (i : nat) (photo_data : PhotoRecord) (c : counters) (w : world) :
  files (snd (loop_body' i photo_data (c, w)))
  = apply_writes (record_writes' i photo_data) (files w).
Proof.
  unfold loop_body.
  pose proof (process_photo_files i photo_data
                (record_call w photo_data (split_of i))) as H.
  unfold split_of in H.
  destruct (process_photo' _ _ _) as [success w']. cbn [snd] in H.
  destruct success, (is_val i); exact H.
Qed.

Lemma loop_files (photos : list PhotoRecord) (i : nat) (c : counters) (w : world) :
  files (snd (loop' i photos (c, w)))
  = apply_writes (records_writes' i photos) (files w).
Proof.
  revert i c w. induction photos as [| photo_data rest IH]; intros i c w; [ reflexivity | ].
  cbn [loop records_writes].
  pose proof (loop_body_files i photo_data c w) as Hb.
  destruct (loop_body' i photo_data (c, w)) as [c1 w1]. cbn [snd] in Hb.
  rewrite IH, Hb, apply_writes_app. reflexivity.
Qed.

Lemma convert_files (photos : list PhotoRecord) (w : world) :
  files (snd (convert_app_data' (Manifest photos) w))
  = apply_writes (run_writes' photos) (files w).
Proof. rewrite convert_manifest. cbn zeta. cbn [snd]. rewrite loop_files. reflexivity. Qed.


(** X12: a second run on the tree the first run left, with the same
    manifest and the same source images, leaves the same tree. *)
Theorem second_run_changes_no_file (photos : list PhotoRecord) (w : world) :
  files (snd (convert_app_data' (Manifest photos)
                (snd (convert_app_data' (Manifest photos) w))))
  = files (snd (convert_app_data' (Manifest photos) w)).
Proof.
  rewrite !convert_files. apply map_eq. intros path.
  rewrite !apply_writes_lookup.
  destruct (last_write path (run_writes' photos)); reflexivity.
Qed.

(** Every write of the records is the image or the label file of a usable
    record, at the paths of its split. *)
Lemma records_writes_In (photos : list PhotoRecord) (i : nat) (q : string) (f : file) :
  In (q, f) (records_writes' i photos) ->
  exists k photo_data,
    photos !! k = Some photo_data /\ usable' photo_data = true
    /\ ((q = image_path output_path (split_of (i + k)) (id photo_data)
         /\ exists out, f = Jpeg out /\ rows out = 640 /\ cols out = 640)
        \/ (q = label_path output_path (split_of (i + k)) (id photo_data)
            /\ f = Text (label_file photo_data (640, 640, 3)))).
Proof.
  revert i. induction photos as [| photo_data rest IH]; intros i; [ intros [] | ].
  cbn [records_writes]. intros Hin. apply in_app_or in Hin as [Hin | Hin].
  - exists 0%nat, photo_data. rewrite Nat.add_0_r. split; [ reflexivity | ].
    unfold record_writes, usable in *.
    destruct (path_exists (imagePath photo_data)); [ | destruct Hin ].
    destruct (imread (imagePath photo_data)) as [img |]; [ | destruct Hin ].
    destruct (optimize_image_for_yolo interpolate gaussian img) as [out |] eqn:Ho;
      [ | destruct Hin ].
    split; [ reflexivity | ].
    destruct Hin as [[= <- <-] | [[= <- <-] | []]].
    + left. split; [ reflexivity | ]. exists out. split; [ reflexivity | ].
      destruct (optimize_is_enhanced _ _ _ _ Ho) as (padded & Hr & Hc & ->).
      destruct (enhance_shape gaussian padded) as [-> ->]. split; assumption.
    + right. split; reflexivity.
  - destruct (IH (S i) Hin) as (k & pd & Hk & Hu & H).
    exists (S k), pd. replace (i + S k)%nat with (S i + k)%nat by lia.
    split; [ exact Hk | ]. split; [ exact Hu | exact H ].
Qed.

Lemma usable_record_writes (photos : list PhotoRecord) (i k : nat)
    (photo_data : PhotoRecord) :
  photos !! k = Some photo_data -> usable' photo_data = true ->
  exists out,
    In (image_path output_path (split_of (i + k)) (id photo_data), Jpeg out)
       (records_writes' i photos)
    /\ In (label_path output_path (split_of (i + k)) (id photo_data),
           Text (label_file photo_data (640, 640, 3)))
          (records_writes' i photos).
Proof.
  revert i k. induction photos as [| pd rest IH]; intros i k Hk Hu; [ discriminate Hk | ].
  cbn [records_writes]. destruct k as [| k].
  - injection Hk as ->. rewrite Nat.add_0_r.
    unfold record_writes, usable in *.
    destruct (path_exists (imagePath photo_data)); [ | discriminate Hu ].
    destruct (imread (imagePath photo_data)) as [img |]; [ | discriminate Hu ].
    destruct (optimize_image_for_yolo interpolate gaussian img) as [out |];
      [ | discriminate Hu ].
    exists out. split; apply in_or_app; left; cbn; auto.
  - destruct (IH (S i) k Hk Hu) as (out & H1 & H2).
    replace (i + S k)%nat with (S i + k)%nat by lia.
    exists out. split; apply in_or_app; right; assumption.
Qed.

Lemma no_record_writes_the_descriptor (photos : list PhotoRecord) (i : nat) :
  last_write (yaml_path output_path) (records_writes' i photos) = None.
Proof.
  destruct (last_write _ _) as [f |] eqn:Hl; [ exfalso | reflexivity ].
  apply last_write_In, records_writes_In in Hl
    as (k & pd & _ & _ & [[Hq _] | [Hq _]]); symmetry in Hq.
  - exact (image_path_not_yaml_path _ _ _ Hq).
  - exact (label_path_not_yaml_path _ _ _ Hq).
Qed.



(** X15: after a run the tree holds [dataset.yaml] with the descriptor
    text, whatever the records are: no record overwrites it. *)
Theorem run_leaves_the_descriptor (photos : list PhotoRecord) (w : world) :
  files (snd (convert_app_data' (Manifest photos) w)) !! yaml_path output_path
  = Some (Text (dataset_yaml output_path_absolute)).
Proof.
  rewrite convert_files, apply_writes_lookup. unfold run_writes.
  cbn [last_write fst snd]. rewrite no_record_writes_the_descriptor, String.eqb_refl.
  reflexivity.
Qed.

Lemma loop_written (photos : list PhotoRecord) (i : nat) (c : counters) (w : world) :
  let c' := fst (loop' i photos (c, w)) in
  train_count c' = (train_count c + written' false i photos)%nat
  /\ val_count c' = (val_count c + written' true i photos)%nat.
Proof.
  revert i c w. induction photos as [| photo_data rest IH]; intros i c w.
  - cbn. lia.
  - cbn [loop written].
    pose proof (loop_body_counters interpolate gaussian path_exists imread output_path
                  i photo_data c w) as Hb.
    destruct (loop_body' i photo_data (c, w)) as [c1 w1]. cbn [fst] in Hb.
    specialize (IH (S i) c1 w1). cbn zeta in IH |- *. destruct IH as [IH1 IH2].
    rewrite IH1, IH2.
    destruct (usable' photo_data), (is_val i); cbn [andb Bool.eqb]; lia.
Qed.


End Tree.

Lemma sample_usable :
  usable Letterbox.sample_interpolate Letterbox.sample_gaussian sample_exists
    sample_imread (photo "a") = true
  /\ usable Letterbox.sample_interpolate Letterbox.sample_gaussian sample_exists
       sample_imread (photo "b") = false
  /\ usable Letterbox.sample_interpolate Letterbox.sample_gaussian sample_exists
       sample_imread (photo "c") = false.
Proof. repeat split; vm_compute; reflexivity. Qed.




End TreeFacts.
